(** * YouTube Feed Organizer: storage lifecycle, remote fetch and query engine

    A shallow embedding of the extension's background modules
    ([shared/utils.js], [shared/constants.js], [background/storage-manager.js],
    [background/api-handler.js]) and of the feed page's filter and sort code
    ([pages/feed/feed.js]), followed by the properties of the specification
    that are stated about them.

    Conventions of the embedding:
    - JavaScript integers (timestamps, counters, lengths, stored limits) are
      [Z]; the storage-usage percentage and the eviction ratio, which the
      source computes on doubles, are exact rationals [Q];
    - [chrome.storage.local] is a record with one optional field per key;
      [chrome.storage.local.set] overwrites the keys it is given;
    - host services that the repository does not define (the byte count of
      the store, [Date.now], [fetch], [String.prototype.toLowerCase],
      [trim], [localeCompare]) are parameters;
    - asynchronous functions are computations in a state-and-exception monad
      over the world (store, clock, network trace); [await] is sequencing. *)

From Stdlib Require Import ZArith QArith Qround String Ascii OrderedTypeEx.
From stdpp Require Import base tactics option list sorting gmap strings pretty.

Local Open Scope string_scope.
Local Open Scope list_scope.
Local Open Scope Z_scope.

(** ** JavaScript built-ins used by the modelled code *)

Module Js.

(** A number read back from storage or produced by [parseInt]. *)
Inductive number := Num (n : Z) | NaN.

(** ToBoolean on numbers and strings. *)
Definition truthy_number (x : number) : bool :=
  match x with
  | Num n => negb (n =? 0)
  | NaN => false
  end.

Definition truthy_string (s : string) : bool :=
  match s with
  | EmptyString => false
  | String _ _ => true
  end.

(** [x || d] for a numeric setting and a numeric default. *)
Definition or_default (x : number) (d : Z) : Z :=
  match x with
  | Num n => if truthy_number x then n else d
  | NaN => d
  end.

Section Arrays.
Context {A : Type}.

(** Relative index of [Array.prototype.slice]: negative indices count
    from the end, everything is clamped to [0, len]. *)
Definition relative_index (len k : Z) : Z :=
  if k <? 0 then Z.max (len + k) 0 else Z.min k len.

(** [l.slice(start, end)] *)
Definition slice (l : list A) (start end_ : Z) : list A :=
  let len := Z.of_nat (length l) in
  let k := relative_index len start in
  let final := relative_index len end_ in
  take (Z.to_nat (final - k)) (drop (Z.to_nat k) l).

(** [l.slice(start)] *)
Definition slice_from (l : list A) (start : Z) : list A :=
  slice l start (Z.of_nat (length l)).

(** [Array.prototype.sort(cmp)]. ECMAScript requires the sort to be
    stable; for a consistent comparator the stable sorted permutation of
    a list is unique, and insertion from the right computes it: an
    element is placed before the first element it does not follow. *)
Fixpoint sort_insert (cmp : A → A → Z) (x : A) (l : list A) : list A :=
  match l with
  | [] => [x]
  | y :: l' => if cmp x y <=? 0 then x :: y :: l' else y :: sort_insert cmp x l'
  end.

Fixpoint sort (cmp : A → A → Z) (l : list A) : list A :=
  match l with
  | [] => []
  | x :: l' => sort_insert cmp x (sort cmp l')
  end.
End Arrays.

(** [s.includes(q)] *)
Fixpoint includes (s q : string) : bool :=
  String.prefix q s ||
  match s with
  | EmptyString => false
  | String _ s' => includes s' q
  end.

(** [parts.join(sep)] *)
Fixpoint join (sep : string) (parts : list string) : string :=
  match parts with
  | [] => ""
  | [p] => p
  | p :: rest => p +:+ sep +:+ join sep rest
  end.

(** A comparator is consistent when its sign is antisymmetric and
    "not after" is transitive (ECMAScript, Array.prototype.sort). *)
Class Consistent {A : Type} (cmp : A → A → Z) : Prop := {
  cmp_antisym : ∀ a b, cmp a b < 0 ↔ 0 < cmp b a;
  cmp_trans : ∀ a b c, cmp a b <= 0 → cmp b c <= 0 → cmp a c <= 0
}.

End Js.

(** ** shared/models.js: the data model *)

(** The fields of a captured video that the modelled code reads or writes.
    The remaining fields of the source record (thumbnail, description,
    publish date, tags, duration, ...) are only carried along. *)
Record Video := {
  id : string;
  title : string;
  channelTitle : string;
  channelId : string;
  defaultLanguage : string;
  defaultAudioLanguage : string;
  regionCode : string;
  capturedAt : Z;
  viewCount : Z
}.

(** The settings object as [getSettings] returns it. *)
Record Settings := {
  apiKey : string;
  autoCapture : bool;
  captureInterval : Js.number;
  maxStoredVideos : Js.number;
  targetVideoCount : Js.number
}.

(** The settings blob as it sits in storage: any field may be missing. *)
Record StoredSettings := {
  stored_apiKey : option string;
  stored_autoCapture : option bool;
  stored_captureInterval : option Js.number;
  stored_maxStoredVideos : option Js.number;
  stored_targetVideoCount : option Js.number
}.

(** Filter objects. [sortBy] is absent ([None]) or a string; the feed page
    also keeps the search query here. A missing language or country list
    is the empty list: the code treats both alike. *)
Record Filters := {
  selectedLanguages : list string;
  selectedCountries : list string;
  sortBy : option string;
  searchQuery : string
}.

Record CaptureHistory := {
  timestamp : Z;
  videoCount : Z
}.

(** ** shared/constants.js *)

Module Constants.
Definition BASE_URL := "https://www.googleapis.com/youtube/v3".
Definition VIDEOS_ENDPOINT := "/videos".
Definition BATCH_SIZE : nat := 50.
Definition PARTS := Js.join "," ["snippet"; "statistics"; "contentDetails"].

Definition DEFAULT_SETTINGS : Settings := {|
  apiKey := "";
  autoCapture := false;
  captureInterval := Js.Num 60;
  maxStoredVideos := Js.Num 500;
  targetVideoCount := Js.Num 100
|}.

Definition DEFAULT_FILTERS : Filters := {|
  selectedLanguages := [];
  selectedCountries := [];
  sortBy := Some "date";
  searchQuery := ""
|}.

Definition MAX_SIZE_BYTES : Z := 10 * 1024 * 1024.
Definition WARNING_THRESHOLD : Q := 8 # 10.
Definition EVICTION_TARGET : Q := 6 # 10.
End Constants.

(** ** The world: store, clock and network *)

(** [chrome.storage.local]: one optional entry per storage key. The same
    shape serves as the argument of [set], where [None] means "key not
    given". *)
Record Store := {
  settings : option StoredSettings;
  videos : option (list Video);
  filters : option Filters;
  lastCaptureTimestamp : option Z;
  captureHistory : option (list CaptureHistory)
}.

Definition empty_store : Store := {|
  settings := None; videos := None; filters := None;
  lastCaptureTimestamp := None; captureHistory := None
|}.

(** A row of the channels endpoint. *)
Record ChannelSnippet := {
  country : option string;
  channel_title : option string;
  customUrl : option string
}.

Record ChannelItem := {
  channel_id : string;
  channel_snippet : option ChannelSnippet
}.

(** Completion of a computation: a value or a thrown [Error(message)]. *)
Inductive Result (A : Type) :=
  | Ok (a : A)
  | Throw (message : string).
Arguments Ok {A} a.
Arguments Throw {A} message.

(** What a [fetch] produces, seen through the code that consumes it.
    [error_message] is [errorData.error?.message] of the decoded error body
    ([None] when the body has none or does not decode). [parsed_videos] is
    [parseApiResponse(await response.json())] and [channel_items] is
    [data.items] of a channels response ([Ok None] when the field is
    missing); both are [Throw] when decoding or reading the body throws.
    The parsed records carry the capture time stamps that
    [parseApiResponse] gave them. *)
Record Response := {
  ok : bool;
  status : Z;
  error_message : option string;
  parsed_videos : Result (list Video);
  channel_items : Result (option (list ChannelItem))
}.

Inductive FetchOutcome :=
  | Rejected (reason : string)
  | Resolved (r : Response).

Inductive Event :=
  | EvFetch (url : string)
  | EvSleep (ms : Z)
  | EvStorageSet (items : Store).

Record World := {
  store : Store;
  clock : nat;
  trace : list Event
}.

(** The host: the store's byte accounting, the sequence of [Date.now]
    readings, the network, which answers the [n]-th request of a run, and
    the string services of the JavaScript engine. *)
Record Host := {
  getBytesInUse : Store → Z;
  Date_now : nat → Z;
  fetch : nat → string → FetchOutcome;
  toLowerCase : string → string;
  trim : string → string;
  localeCompare : string → string → Z
}.

(** ** Asynchronous code: state and exceptions *)

Module Eff.

Definition M (A : Type) : Type := World → Result A * World.

Definition ret {A} (a : A) : M A := λ w, (Ok a, w).

Definition throw {A} (message : string) : M A := λ w, (Throw message, w).

Definition bind {A B} (m : M A) (k : A → M B) : M B :=
  λ w, match m w with
       | (Ok a, w') => k a w'
       | (Throw e, w') => (Throw e, w')
       end.

(** [try { m } catch (error) { handler(error) }] *)
Definition try_catch {A} (m : M A) (handler : string → M A) : M A :=
  λ w, match m w with
       | (Ok a, w') => (Ok a, w')
       | (Throw e, w') => handler e w'
       end.

Definition get_store : M Store := λ w, (Ok (store w), w).

Definition emit (e : Event) : M unit :=
  λ w, (Ok tt, {| store := store w; clock := clock w; trace := trace w ++ [e] |}).

(** Sequential [for (const x of xs) { body(x) }]. *)
Fixpoint for_each {A} (xs : list A) (body : A → M unit) : M unit :=
  match xs with
  | [] => ret tt
  | x :: xs' => bind (body x) (λ _, for_each xs' body)
  end.

End Eff.

(** The monad's operations, so that [x ← m; k] and [m;; k] read as [await]. *)
Global Instance M_ret : MRet Eff.M := @Eff.ret.
Global Instance M_bind : MBind Eff.M := λ A B k m, Eff.bind m k.

(** ** shared/utils.js *)

Module Utils.
Section Generic.
Context {A : Type}.

(** [for (let i = 0; i < array.length; i += size)
       chunks.push(array.slice(i, i + size))].
    The loop counter is [i]; [fuel] bounds the number of iterations and
    [length array] of them are enough for every [size ≥ 1] (with
    [size = 0] the source loop does not terminate). *)
Fixpoint chunk_loop (array : list A) (size : nat) (fuel i : nat)
  : list (list A) :=
  match fuel with
  | O => []
  | S fuel' =>
      if decide (i < length array)%nat
      then Js.slice array (Z.of_nat i) (Z.of_nat (i + size))
             :: chunk_loop array size fuel' (i + size)
      else []
  end.

Definition chunkArray (array : list A) (size : nat) : list (list A) :=
  chunk_loop array size (length array) 0.

(** [array.filter(item => ...)] over the mutable set [seen]. *)
Fixpoint dedup_filter `{Countable K} (key : A → K) (seen : gset K)
    (array : list A) : list A :=
  match array with
  | [] => []
  | item :: rest =>
      let value := key item in
      if decide (value ∈ seen)
      then dedup_filter key seen rest
      else item :: dedup_filter key ({[ value ]} ∪ seen) rest
  end.

Definition deduplicateBy `{Countable K} (array : list A) (key : A → K)
  : list A :=
  dedup_filter key ∅ array.
End Generic.
End Utils.

(** ** background/storage-manager.js *)

Module Storage.
Import Eff.

Record StorageUsage := {
  bytesInUse : Z;
  maxBytes : Z;
  percentage : Q;        (* the value printed by [toFixed(2)] *)
  isNearLimit : bool
}.

(** [x.toFixed(2)] read back as a number, for [x ≥ 0]: the nearest
    multiple of 1/100, the larger one on a tie. *)
Definition toFixed2 (x : Q) : Q := Qfloor (x * 100 + (1 # 2)) # 100.

(** [{ ...DEFAULT_SETTINGS, ...stored }] *)
Definition spread_settings (base : Settings) (over : StoredSettings)
  : Settings := {|
  apiKey := default (apiKey base) (stored_apiKey over);
  autoCapture := default (autoCapture base) (stored_autoCapture over);
  captureInterval := default (captureInterval base) (stored_captureInterval over);
  maxStoredVideos := default (maxStoredVideos base) (stored_maxStoredVideos over);
  targetVideoCount := default (targetVideoCount base) (stored_targetVideoCount over)
|}.

(** The empty object [{}]. *)
Definition no_settings : StoredSettings := {|
  stored_apiKey := None; stored_autoCapture := None;
  stored_captureInterval := None; stored_maxStoredVideos := None;
  stored_targetVideoCount := None
|}.

(** Effect of [chrome.storage.local.set(items)] on the store. *)
Definition write_items (items s : Store) : Store := {|
  settings := settings items ∪ settings s;
  videos := videos items ∪ videos s;
  filters := filters items ∪ filters s;
  lastCaptureTimestamp := lastCaptureTimestamp items ∪ lastCaptureTimestamp s;
  captureHistory := captureHistory items ∪ captureHistory s
|}.

Definition storage_set (items : Store) : M unit :=
  λ w, (Ok tt, {| store := write_items items (store w);
                  clock := clock w;
                  trace := trace w ++ [EvStorageSet items] |}).

Definition by_date (a b : Video) : Z := capturedAt b - capturedAt a.
Definition by_views (a b : Video) : Z := viewCount b - viewCount a.

Section WithHost.
Context (host : Host).

Definition by_title (a b : Video) : Z :=
  localeCompare host (title a) (title b).

(** [Date.now()]: the next reading of the clock. *)
Definition now : M Z :=
  λ w, (Ok (Date_now host (clock w)),
        {| store := store w; clock := S (clock w); trace := trace w |}).

Definition sortVideos (videos : list Video) (sortBy : option string)
  : list Video :=
  let sorted := videos in
  if decide (sortBy = Some "date") then Js.sort by_date sorted
  else if decide (sortBy = Some "views") then Js.sort by_views sorted
  else if decide (sortBy = Some "title") then Js.sort by_title sorted
  else Js.sort by_date sorted.

Definition applyFilters (videos : list Video) (filters : Filters)
  : list Video :=
  let filtered := videos in
  let filtered :=
    if decide (0 < length (selectedLanguages filters))%nat
    then filter (λ video,
             defaultLanguage video ∈ selectedLanguages filters ∨
             defaultAudioLanguage video ∈ selectedLanguages filters) filtered
    else filtered in
  let filtered :=
    if decide (0 < length (selectedCountries filters))%nat
    then filter (λ video, regionCode video ∈ selectedCountries filters) filtered
    else filtered in
  match sortBy filters with
  | Some key =>
      if Js.truthy_string key then sortVideos filtered (Some key) else filtered
  | None => filtered
  end.

Definition getVideos (filters : option Filters) : M (list Video) :=
  s ← get_store;
  let videos := default [] (videos s) in
  mret (match filters with
        | Some f => applyFilters videos f
        | None => videos
        end).

Definition clearVideos : M unit :=
  storage_set {| settings := None; videos := Some []; filters := None;
                 lastCaptureTimestamp := Some 0;
                 captureHistory := Some [] |}.

Definition getSettings : M Settings :=
  s ← get_store;
  mret (spread_settings Constants.DEFAULT_SETTINGS
          (default no_settings (settings s))).

Definition saveSettings (new_settings : StoredSettings) : M unit :=
  storage_set {| settings := Some new_settings; videos := None;
                 filters := None; lastCaptureTimestamp := None;
                 captureHistory := None |}.

Definition getStorageUsage : M StorageUsage :=
  s ← get_store;
  let bytesInUse := getBytesInUse host s in
  let maxBytes := Constants.MAX_SIZE_BYTES in
  let percentage := (inject_Z bytesInUse / inject_Z maxBytes * 100)%Q in
  mret {| bytesInUse := bytesInUse;
          maxBytes := maxBytes;
          percentage := toFixed2 percentage;
          isNearLimit :=
            negb (Qle_bool percentage (Constants.WARNING_THRESHOLD * 100)) |}.

(** [Math.floor(count * (targetPercentage / percentage))] *)
Definition targetCount (count : nat) (percentage : Q) : Z :=
  let targetPercentage := (Constants.EVICTION_TARGET * 100)%Q in
  Qfloor (inject_Z (Z.of_nat count) * (targetPercentage / percentage)).

Definition checkAndEvictIfNeeded (videos : list Video) : M (list Video) :=
  usage ← getStorageUsage;
  if negb (Qle_bool (percentage usage) (Constants.WARNING_THRESHOLD * 100))
  then
    let targetCount := targetCount (length videos) (percentage usage) in
    let evictedVideos := Js.slice videos 0 targetCount in
    storage_set {| settings := None; videos := Some evictedVideos;
                   filters := None; lastCaptureTimestamp := None;
                   captureHistory := None |};;
    mret evictedVideos
  else mret videos.

Definition updateCaptureHistory (videoCount : Z) : M unit :=
  s ← get_store;
  let history := default [] (captureHistory s) in
  t ← now;
  let history := history ++ [{| timestamp := t; videoCount := videoCount |}] in
  let trimmedHistory := Js.slice_from history (-50) in
  storage_set {| settings := None; videos := None; filters := None;
                 lastCaptureTimestamp := None;
                 captureHistory := Some trimmedHistory |}.

Definition saveVideos (newVideos : list Video) : M unit :=
  if decide (length newVideos = 0%nat) then mret tt
  else
    existingVideos ← getVideos None;
    let allVideos := existingVideos ++ newVideos in
    let uniqueVideos := Utils.deduplicateBy allVideos id in
    let uniqueVideos := Js.sort by_date uniqueVideos in
    settings ← getSettings;
    let maxVideos := Js.or_default (maxStoredVideos settings) 500 in
    let videosToStore :=
      if decide (maxVideos < Z.of_nat (length uniqueVideos))
      then Js.slice uniqueVideos 0 maxVideos
      else uniqueVideos in
    checkAndEvictIfNeeded videosToStore;;
    t ← now;
    storage_set {| settings := None; videos := Some videosToStore;
                   filters := None; lastCaptureTimestamp := Some t;
                   captureHistory := None |};;
    updateCaptureHistory (Z.of_nat (length newVideos)).

Definition getCaptureHistory : M (list CaptureHistory) :=
  s ← get_store; mret (default [] (captureHistory s)).

Definition getLastCaptureTimestamp : M Z :=
  s ← get_store; mret (default 0 (lastCaptureTimestamp s)).
End WithHost.
End Storage.

(** ** background/api-handler.js *)

Module Api.
Import Eff.

(** An entry of the channel map built by [fetchChannelDetails];
    [info_country = None] is the source's [null]. *)
Record ChannelInfo := {
  info_country : option string;
  info_title : string;
  info_customUrl : string
}.

(** [x || fallback] on an optional string. *)
Definition string_or (x : option string) (fallback : string) : string :=
  match x with
  | Some s => if Js.truthy_string s then s else fallback
  | None => fallback
  end.

(** [x || null] on an optional string. *)
Definition string_or_null (x : option string) : option string :=
  match x with
  | Some s => if Js.truthy_string s then Some s else None
  | None => None
  end.

(** [data.items.forEach(item => { channelMap[item.id] = {...} })];
    reading [item.snippet.country] of an item without snippet throws. *)
Fixpoint build_channel_map (items : list ChannelItem)
    (channelMap : gmap string ChannelInfo) : Result (gmap string ChannelInfo) :=
  match items with
  | [] => Ok channelMap
  | item :: rest =>
      match channel_snippet item with
      | None => Throw "Cannot read properties of undefined"
      | Some snippet =>
          build_channel_map rest
            (<[ channel_id item :=
                  {| info_country := string_or_null (country snippet);
                     info_title := string_or (channel_title snippet) "";
                     info_customUrl := string_or (customUrl snippet) "" |} ]>
               channelMap)
      end
  end.

(** [videos.forEach(video => { if (channel && channel.country)
      video.regionCode = channel.country })] on one video. *)
Definition merge_channel (channelDetails : gmap string ChannelInfo)
    (video : Video) : Video :=
  match channelDetails !! channelId video with
  | Some channel =>
      match info_country channel with
      | Some c =>
          if Js.truthy_string c
          then {| id := id video; title := title video;
                  channelTitle := channelTitle video;
                  channelId := channelId video;
                  defaultLanguage := defaultLanguage video;
                  defaultAudioLanguage := defaultAudioLanguage video;
                  regionCode := c;
                  capturedAt := capturedAt video;
                  viewCount := viewCount video |}
          else video
      | None => video
      end
  | None => video
  end.

Definition is_fetch (e : Event) : bool :=
  match e with
  | EvFetch _ => true
  | _ => false
  end.

(** Number of requests issued so far. *)
Definition fetches (t : list Event) : nat :=
  length (filter (λ e, is_fetch e) t).

Section WithHost.
Context (host : Host).

(** [await fetch(url)]: the request is recorded, and a rejected promise
    is thrown at the [await]. *)
Definition do_fetch (url : string) : M Response :=
  λ w,
    let w' := {| store := store w; clock := clock w;
                 trace := trace w ++ [EvFetch url] |} in
    match fetch host (fetches (trace w)) url with
    | Rejected reason => (Throw reason, w')
    | Resolved response => (Ok response, w')
    end.

Definition sleep (ms : Z) : M unit := emit (EvSleep ms).

(** Lift a completed [Result] into the monad. *)
Definition complete {A} (r : Result A) : M A :=
  match r with
  | Ok a => ret a
  | Throw e => throw e
  end.

Definition fetchVideoBatch (videoIds : list string) (apiKey : string)
  : M (list Video) :=
  let url := Constants.BASE_URL +:+ Constants.VIDEOS_ENDPOINT +:+ "?" +:+
             "part=" +:+ Constants.PARTS +:+ "&" +:+
             "id=" +:+ Js.join "," videoIds +:+ "&" +:+
             "key=" +:+ apiKey in
  response ← do_fetch url;
  if negb (ok response)
  then throw (string_or (error_message response)
                ("API request failed: " +:+ pretty (status response)))
  else complete (parsed_videos response).

Definition fetchChannelDetails (channelIds : list string) (apiKey : string)
  : M (gmap string ChannelInfo) :=
  if decide (length channelIds = 0%nat) then mret ∅
  else
    try_catch
      (let url := Constants.BASE_URL +:+ "/channels?" +:+
                  "part=snippet&" +:+
                  "id=" +:+ Js.join "," channelIds +:+ "&" +:+
                  "key=" +:+ apiKey in
       response ← do_fetch url;
       if negb (ok response) then mret ∅
       else
         items ← complete (channel_items response);
         match items with
         | Some items => complete (build_channel_map items ∅)
         | None => mret ∅
         end)
      (λ _, mret ∅).

(** The body of the [try] block for one chunk; its value is the list
    pushed onto [allVideos]. *)
Definition fetch_chunk (chunks : list (list string)) (apiKey : string)
    (chunk : list string) : M (list Video) :=
  videos ← fetchVideoBatch chunk apiKey;
  (* [...new Set(videos.map(v => v.channelId))]: distinct, in first-seen order *)
  let channelIds := Utils.deduplicateBy (channelId <$> videos) (λ c, c) in
  channelDetails ← fetchChannelDetails channelIds apiKey;
  let videos := merge_channel channelDetails <$> videos in
  (if decide (1 < length chunks)%nat then sleep 150 else mret tt);;
  mret videos.

(** [for (const chunk of chunks) { try { ... allVideos.push(...videos) ... }
    catch (error) { } }], threading [allVideos]. Nothing after the push
    can throw, so a caught exception leaves [allVideos] as it was. *)
Fixpoint fetch_chunks (chunks : list (list string)) (apiKey : string)
    (todo : list (list string)) (allVideos : list Video) : M (list Video) :=
  match todo with
  | [] => mret allVideos
  | chunk :: todo' =>
      allVideos ←
        try_catch
          (videos ← fetch_chunk chunks apiKey chunk;
           mret (allVideos ++ videos))
          (λ _, mret allVideos);
      fetch_chunks chunks apiKey todo' allVideos
  end.

Definition fetchVideoDetails (videoIds : list string) (apiKey : string)
  : M (list Video) :=
  if decide (length videoIds = 0%nat) then mret []
  else if negb (Js.truthy_string apiKey) then throw "API key is required"
  else
    let chunks := Utils.chunkArray videoIds Constants.BATCH_SIZE in
    fetch_chunks chunks apiKey chunks [].

(** [Math.ceil(videoCount / BATCH_SIZE) * REQUEST_COST * 2] *)
Definition estimateQuotaUsage (videoCount : Z) : Z :=
  let requestCount :=
    (videoCount + Z.of_nat Constants.BATCH_SIZE - 1) / Z.of_nat Constants.BATCH_SIZE in
  requestCount * 1 * 2.
End WithHost.
End Api.

(** ** pages/feed/feed.js: filter and sort over the page state *)

Module Feed.

(** The module-level variables of the page. *)
Record State := {
  allVideos : list Video;
  filteredVideos : list Video;
  currentFilters : Filters
}.

Definition initial : State := {|
  allVideos := [];
  filteredVideos := [];
  currentFilters := {| selectedLanguages := []; selectedCountries := [];
                       sortBy := Some "date"; searchQuery := "" |}
|}.

Section WithHost.
Context (host : Host).

(** The callback of [allVideos.filter] in [applyFilters]. *)
Definition keep (currentFilters : Filters) (video : Video) : bool :=
  if bool_decide (0 < length (selectedLanguages currentFilters))%nat
     && negb (bool_decide (defaultLanguage video ∈ selectedLanguages currentFilters))
     && negb (bool_decide (defaultAudioLanguage video ∈ selectedLanguages currentFilters))
  then false
  else if bool_decide (0 < length (selectedCountries currentFilters))%nat
          && negb (bool_decide (regionCode video ∈ selectedCountries currentFilters))
  then false
  else if Js.truthy_string (searchQuery currentFilters)
          && (let searchLower := searchQuery currentFilters in
              negb (Js.includes (toLowerCase host (title video)) searchLower)
              && negb (Js.includes (toLowerCase host (channelTitle video)) searchLower))
  then false
  else true.

(** [switch (currentFilters.sortBy)] without a default case. *)
Definition sortVideos (st : State) : State :=
  let key := sortBy (currentFilters st) in
  let sorted :=
    if decide (key = Some "date") then Js.sort Storage.by_date (filteredVideos st)
    else if decide (key = Some "views") then Js.sort Storage.by_views (filteredVideos st)
    else if decide (key = Some "title")
         then Js.sort (Storage.by_title host) (filteredVideos st)
    else filteredVideos st in
  {| allVideos := allVideos st; filteredVideos := sorted;
     currentFilters := currentFilters st |}.

Definition applyFilters (st : State) : State :=
  sortVideos
    {| allVideos := allVideos st;
       filteredVideos := filter (λ video, keep (currentFilters st) video) (allVideos st);
       currentFilters := currentFilters st |}.

(** [searchInput.value] is the text typed by the user. *)
Definition handleSearchChange (value : string) (st : State) : State :=
  applyFilters
    {| allVideos := allVideos st; filteredVideos := filteredVideos st;
       currentFilters :=
         {| selectedLanguages := selectedLanguages (currentFilters st);
            selectedCountries := selectedCountries (currentFilters st);
            sortBy := sortBy (currentFilters st);
            searchQuery := toLowerCase host (trim host value) |} |}.
End WithHost.
End Feed.

(** ** The specification's wording of the query filter

    Section 4.3 reads the text filter as "the lowercased query is a
    substring of the lowercased title or of the lowercased owner display
    name"; [Spec.passes] follows these words, to be compared with
    [Feed.keep] and [Storage.applyFilters]. *)

Module Spec.
Section WithHost.
Context (host : Host).

Definition language_ok (f : Filters) (video : Video) : Prop :=
  selectedLanguages f = [] ∨
  defaultLanguage video ∈ selectedLanguages f ∨
  defaultAudioLanguage video ∈ selectedLanguages f.

Definition country_ok (f : Filters) (video : Video) : Prop :=
  selectedCountries f = [] ∨ regionCode video ∈ selectedCountries f.

Definition text_ok (f : Filters) (video : Video) : Prop :=
  searchQuery f = "" ∨
  Js.includes (toLowerCase host (title video))
              (toLowerCase host (searchQuery f)) = true ∨
  Js.includes (toLowerCase host (channelTitle video))
              (toLowerCase host (searchQuery f)) = true.

Definition passes (f : Filters) (video : Video) : Prop :=
  language_ok f video ∧ country_ok f video ∧ text_ok f video.

(** The text filter as the feed page applies it: the stored query is
    compared as it is. *)
Definition text_ok_as_stored (f : Filters) (video : Video) : Prop :=
  searchQuery f = "" ∨
  Js.includes (toLowerCase host (title video)) (searchQuery f) = true ∨
  Js.includes (toLowerCase host (channelTitle video)) (searchQuery f) = true.
End WithHost.
End Spec.

(** ** A concrete host, for closed examples

    Strings are sequences of bytes here, so the engine's string services
    are instantiated on the ASCII range. *)

Module Demo.

Definition lower_ascii (c : ascii) : ascii :=
  let n := N_of_ascii c in
  if ((65 <=? n) && (n <=? 90))%N then ascii_of_N (n + 32) else c.

Fixpoint lower (s : string) : string :=
  match s with
  | EmptyString => EmptyString
  | String c s' => String (lower_ascii c) (lower s')
  end.

Definition is_space (c : ascii) : bool :=
  let n := N_of_ascii c in
  ((n =? 32) || ((9 <=? n) && (n <=? 13)))%N.

Fixpoint trim_start (s : string) : string :=
  match s with
  | EmptyString => EmptyString
  | String c s' => if is_space c then trim_start s' else s
  end.

Fixpoint trim_end (s : string) : string :=
  match s with
  | EmptyString => EmptyString
  | String c s' =>
      match trim_end s' with
      | EmptyString => if is_space c then EmptyString else String c EmptyString
      | t => String c t
      end
  end.

Definition trim_ascii (s : string) : string := trim_end (trim_start s).

(** Comparison by code units, as a JavaScript comparator. *)
Definition compare_units (a b : string) : Z :=
  match String.compare a b with
  | Lt => -1
  | Eq => 0
  | Gt => 1
  end.

(** A host whose store reports [bytes] bytes in use, whose clock reads
    [1000, 1001, ...] and whose network answers by the script [net]. *)
Definition host (bytes : Store → Z) (net : nat → string → FetchOutcome) : Host := {|
  getBytesInUse := bytes;
  Date_now := λ n, 1000 + Z.of_nat n;
  fetch := net;
  toLowerCase := lower;
  trim := trim_ascii;
  localeCompare := compare_units
|}.

Definition offline (n : nat) (url : string) : FetchOutcome :=
  Rejected "Failed to fetch".

Definition zulu : Video := {|
  id := "z"; title := "Zulu"; channelTitle := "channel"; channelId := "UCz";
  defaultLanguage := "en"; defaultAudioLanguage := "en"; regionCode := "US";
  capturedAt := 7; viewCount := 1
|}.

(** A network whose first answer is an HTTP 500, whose second answer is
    a detail response with the record [zulu], and which answers every later
    request with a channel list that places channel [UCz] in Japan. *)
Definition first_fails (n : nat) (url : string) : FetchOutcome :=
  match n with
  | O => Resolved {| ok := false; status := 500; error_message := None;
                     parsed_videos := Throw "not read";
                     channel_items := Throw "not read" |}
  | S O => Resolved {| ok := true; status := 200; error_message := None;
                       parsed_videos := Ok [zulu];
                       channel_items := Throw "not a channel list" |}
  | _ => Resolved {| ok := true; status := 200; error_message := None;
                     parsed_videos := Throw "not a video list";
                     channel_items :=
                       Ok (Some [{| channel_id := "UCz";
                                    channel_snippet :=
                                      Some {| country := Some "JP";
                                              channel_title := Some "Z";
                                              customUrl := None |} |}]) |}
  end.

(** Fifty-one identifiers: two chunks. *)
Definition fifty_one_ids : list string := pretty <$> seq 0 51.

(** Byte accounting that charges 1 KiB per stored video. *)
Definition kib_per_video (s : Store) : Z :=
  1024 * Z.of_nat (length (default [] (videos s))).

Definition video (i t : string) (captured views : Z) : Video := {|
  id := i; title := t; channelTitle := "channel"; channelId := "UC" +:+ i;
  defaultLanguage := "en"; defaultAudioLanguage := "en"; regionCode := "US";
  capturedAt := captured; viewCount := views
|}.

Definition world (s : Store) : World :=
  {| store := s; clock := 0; trace := [] |}.

Definition store_with (vs : list Video) (max : option Js.number) : Store := {|
  settings := Some {| stored_apiKey := Some "key"; stored_autoCapture := None;
                      stored_captureInterval := None;
                      stored_maxStoredVideos := max;
                      stored_targetVideoCount := None |};
  videos := Some vs;
  filters := None;
  lastCaptureTimestamp := None;
  captureHistory := None
|}.

(** A host whose store reports 9,000,000 of its 10,485,760 bytes in use
    (85.83 percent). *)
Definition nearly_full : Host := host (λ _, 9000000) offline.

(** A host whose store reports 1 KiB per stored video. *)
Definition roomy : Host := host kib_per_video offline.

Definition stored : list Video :=
  [video "a" "Alpha" 5 10; video "b" "Beta" 4 20;
   video "c" "Gamma" 3 5; video "d" "Delta" 2 7].

Definition captured : list Video :=
  [video "e" "Epsilon" 9 1; video "a" "Alpha again" 10 3].

(** A crowded store: a thousand records, newest first, under a ceiling of
    1000, on a host that reports 9,000 bytes per stored record, hence
    9,000,000 bytes (85.83 percent) in use. *)
Definition nine_kb_per_video (s : Store) : Z :=
  9000 * Z.of_nat (length (default [] (videos s))).

Definition crowded : Host := host nine_kb_per_video offline.

Definition clip (i : nat) : Video :=
  video (pretty i) "Clip" (Z.of_nat (2000 - i)) 0.

Definition thousand : list Video := clip <$> seq 1 1000.

Definition crowded_store : Store := store_with thousand (Some (Js.Num 1000)).

(** A record newer than all of [thousand]. *)
Definition fresh : Video := clip 0.
End Demo.

(** ** Specification predicates *)

Module Order.
Section Cmp.
Context {A : Type} (cmp : A → A → Z).

Definition not_after (a b : A) : Prop := cmp a b <= 0.
Definition tied (a b : A) : Prop := cmp a b = 0.

Global Instance tied_dec a b : Decision (tied a b) := Z.eq_dec _ _.

(** [r] is [l] sorted by [cmp], ties kept in the order of [l]: for every
    record [x], the records tied with [x] form the same sequence in [r]
    as in [l]. *)
Definition stable_sort_of (l r : list A) : Prop :=
  r ≡ₚ l ∧
  StronglySorted not_after r ∧
  ∀ x, filter (tied x) r = filter (tied x) l.
End Cmp.
End Order.

(** Observations on stores and runs, used to state the properties. *)
Module Obs.
Definition run {A} (m : Eff.M A) (w : World) : World := snd (m w).
Definition value {A} (m : Eff.M A) (w : World) : Result A := fst (m w).

Definition stored_videos (s : Store) : list Video := default [] (videos s).
Definition ids (vs : list Video) : list string := id <$> vs.
Definition history (s : Store) : list CaptureHistory :=
  default [] (captureHistory s).

(** The [maxStoredVideos] field of the stored settings blob, if any. *)
Definition stored_max (s : Store) : option Js.number :=
  settings s ≫= stored_maxStoredVideos.

(** [settings.maxStoredVideos] as [getSettings] reports it. *)
Definition configured_max (s : Store) : Js.number :=
  maxStoredVideos
    (Storage.spread_settings Constants.DEFAULT_SETTINGS
       (default Storage.no_settings (settings s))).

(** [usage.percentage] as [getStorageUsage] reports it. *)
Definition percentage (host : Host) (s : Store) : Q :=
  Storage.toFixed2
    (inject_Z (getBytesInUse host s) / inject_Z Constants.MAX_SIZE_BYTES * 100).

(** The test of [checkAndEvictIfNeeded]. *)
Definition evicts (host : Host) (s : Store) : bool :=
  negb (Qle_bool (percentage host s) (Constants.WARNING_THRESHOLD * 100)).

(** The stages of a merge: the de-duplicated union, the same sorted
    newest first, the count ceiling in force, and the collection that
    [saveVideos] passes to the eviction check and then persists. *)
Definition deduplicated (existing newVideos : list Video) : list Video :=
  Utils.deduplicateBy (existing ++ newVideos) id.

Definition merged (s : Store) (newVideos : list Video) : list Video :=
  Js.sort Storage.by_date (deduplicated (stored_videos s) newVideos).

Definition ceiling (s : Store) : Z := Js.or_default (configured_max s) 500.

Definition count_truncated (s : Store) (newVideos : list Video) : list Video :=
  if decide (ceiling s < Z.of_nat (length (merged s newVideos)))
  then Js.slice (merged s newVideos) 0 (ceiling s)
  else merged s newVideos.

(** What the eviction step keeps of a collection. *)
Definition evicted (host : Host) (s : Store) (vs : list Video) : list Video :=
  Js.slice vs 0 (Storage.targetCount (length vs) (percentage host s)).

(** The argument of a [chrome.storage.local.set] that writes only the
    collection. *)
Definition only_videos (vs : list Video) : Store :=
  {| settings := None; videos := Some vs; filters := None;
     lastCaptureTimestamp := None; captureHistory := None |}.

(** The last fifty entries of a log. *)
Definition last50 {A} (l : list A) : list A := drop (length l - 50) l.

(** The store with [maxStoredVideos] set to [m] in its settings blob. *)
Definition set_max (s : Store) (m : Js.number) : Store :=
  let blob := default Storage.no_settings (settings s) in
  {| settings := Some {| stored_apiKey := stored_apiKey blob;
                        stored_autoCapture := stored_autoCapture blob;
                        stored_captureInterval := stored_captureInterval blob;
                        stored_maxStoredVideos := Some m;
                        stored_targetVideoCount := stored_targetVideoCount blob |};
     videos := videos s;
     filters := filters s;
     lastCaptureTimestamp := lastCaptureTimestamp s;
     captureHistory := captureHistory s |}.

(** The history entry that the [i]-th merge of a run started at clock
    reading [c] appends for a batch [b]: each merge reads the clock twice,
    the second time for the entry. *)
Definition entry_of (host : Host) (c : nat) (i : nat) (b : list Video)
  : CaptureHistory :=
  {| timestamp := Date_now host (c + 2 * i + 1);
     videoCount := Z.of_nat (length b) |}.

(** The collections written by the [set] calls of a trace, in order. *)
Definition videos_written (t : list Event) : list (list Video) :=
  omap (λ e, match e with
             | EvStorageSet items => videos items
             | _ => None
             end) t.
End Obs.

(** What the chunk loop of [fetchVideoDetails] yields, chunk by chunk. A
    chunk whose detail request fails (the fetch rejects, the status is not
    a success, or the body cannot be read) contributes nothing; a chunk
    whose detail request succeeds contributes its parsed records, with the
    region taken from the channel lookup where that gives one. [multi]
    tells whether there is more than one chunk, in which case a successful
    chunk is followed by the 150 ms pause. *)
Module Chunks.
Section WithHost.
Context (host : Host) (apiKey : string) (multi : bool).

Definition pause (w : World) : World :=
  if multi
  then {| store := store w; clock := clock w; trace := trace w ++ [EvSleep 150] |}
  else w.

Inductive chunk_outcome (chunk : list string) (w : World)
  : list Video → World → Prop :=
  | chunk_failed message w1 :
      Api.fetchVideoBatch host chunk apiKey w = (Throw message, w1) →
      chunk_outcome chunk w [] w1
  | chunk_fetched parsed w1 channelDetails w2 :
      Api.fetchVideoBatch host chunk apiKey w = (Ok parsed, w1) →
      Api.fetchChannelDetails host
        (Utils.deduplicateBy (channelId <$> parsed) (λ c, c)) apiKey w1
      = (Ok channelDetails, w2) →
      chunk_outcome chunk w
        (Api.merge_channel channelDetails <$> parsed) (pause w2).

Inductive outcomes : list (list string) → World
                     → list (list Video) → World → Prop :=
  | outcomes_nil w : outcomes [] w [] w
  | outcomes_cons chunk chunks w records w1 rest w2 :
      chunk_outcome chunk w records w1 →
      outcomes chunks w1 rest w2 →
      outcomes (chunk :: chunks) w (records :: rest) w2.
End WithHost.
End Chunks.

(** Newest first, most viewed first, and titles ascending in the order of
    [localeCompare]. *)
Definition newest_first (a b : Video) : Prop := capturedAt b <= capturedAt a.

(** ** Further built-ins: strings and insertion-ordered sets *)

Module JsString.

(** [s.split(sep)[0]] for a one-character separator: the part of [s]
    before the first occurrence of [sep], all of [s] when there is none. *)
Fixpoint before_first (sep : ascii) (s : string) : string :=
  match s with
  | EmptyString => EmptyString
  | String c s' =>
      if Ascii.eqb c sep then EmptyString else String c (before_first sep s')
  end.

(** The rest of [s] after the literal [p], when [s] starts with [p]. *)
Fixpoint strip_prefix (p s : string) : option string :=
  match p with
  | EmptyString => Some s
  | String a p' =>
      match s with
      | EmptyString => None
      | String b s' => if Ascii.eqb a b then strip_prefix p' s' else None
      end
  end.

(** Every character of [s] satisfies [p]. *)
Fixpoint all_chars (p : ascii → bool) (s : string) : bool :=
  match s with
  | EmptyString => true
  | String c s' => p c && all_chars p s'
  end.

(** The comparator of [Array.prototype.sort()] without argument, on
    strings: by code units. *)
Definition compare (a b : string) : Z :=
  match String.compare a b with
  | Lt => -1
  | Eq => 0
  | Gt => 1
  end.

End JsString.

(** A JavaScript [Set] of strings, as the sequence of its elements in
    insertion order. *)
Module JsSet.

Definition add (x : string) (set : list string) : list string :=
  if decide (x ∈ set) then set else set ++ [x].

End JsSet.

(** ** shared/utils.js: identifiers, language codes, relative times *)

Module UtilsText.

(** The character class [[a-zA-Z0-9_-]]. *)
Definition id_char (c : ascii) : bool :=
  let n := N_of_ascii c in
  ((97 <=? n) && (n <=? 122) || (65 <=? n) && (n <=? 90) ||
   (48 <=? n) && (n <=? 57) || (n =? 95) || (n =? 45))%N.

(** A video identifier: eleven characters of the class. *)
Definition is_video_id (v : string) : bool :=
  bool_decide (String.length v = 11%nat) && JsString.all_chars id_char v.

(** [[a-zA-Z0-9_-]{n}] at the start of [s]: the [n] characters matched. *)
Fixpoint take_id (n : nat) (s : string) : option string :=
  match n with
  | O => Some EmptyString
  | S n' =>
      match s with
      | EmptyString => None
      | String c s' =>
          if id_char c
          then match take_id n' s' with
               | Some v => Some (String c v)
               | None => None
               end
          else None
      end
  end.

(** [/watch\?v=([a-zA-Z0-9_-]{11})/] anchored at the start of [s]: the
    captured group. *)
Definition match_here (s : string) : option string :=
  match JsString.strip_prefix "watch?v=" s with
  | Some rest => take_id 11 rest
  | None => None
  end.

(** [url.match(regex)]: the leftmost position at which the expression
    matches decides; [match ? match[1] : null]. *)
Fixpoint extractVideoId (url : string) : option string :=
  match match_here url with
  | Some v => Some v
  | None =>
      match url with
      | EmptyString => None
      | String _ url' => extractVideoId url'
      end
  end.

Section WithHost.
Context (host : Host).

(** [if (!code || code === 'unknown') return 'unknown';
     return code.toLowerCase().split('-')[0]] *)
Definition normalizeLanguageCode (code : string) : string :=
  if negb (Js.truthy_string code) || bool_decide (code = "unknown")
  then "unknown"
  else JsString.before_first "-" (toLowerCase host code).
End WithHost.

(** The largest time value of a [Date]; beyond it [new Date(t)] is an
    invalid date. *)
Definition MAX_TIME_VALUE : Z := 8640000000000000.

(** [`${n} ${unit}${n > 1 ? 's' : ''} ago`] *)
Definition ago (n : Z) (unit : string) : string :=
  pretty n +:+ " " +:+ unit +:+ (if 1 <? n then "s" else "") +:+ " ago".

(** [formatRelativeTime(timestamp)] for a numeric time stamp; [now] is the
    reading of [new Date()]. With an invalid date the difference is not a
    number and every comparison fails. The quotients are those of the
    integers, which is what the doubles give while the difference is
    below 2^53 in size. *)
Definition formatRelativeTime (now timestamp : Z) : string :=
  if MAX_TIME_VALUE <? Z.abs timestamp then "Just now"
  else
    let diffMs := now - timestamp in
    let diffSec := diffMs / 1000 in
    let diffMin := diffSec / 60 in
    let diffHour := diffMin / 60 in
    let diffDay := diffHour / 24 in
    let diffMonth := diffDay / 30 in
    let diffYear := diffDay / 365 in
    if 0 <? diffYear then ago diffYear "year"
    else if 0 <? diffMonth then ago diffMonth "month"
    else if 0 <? diffDay then ago diffDay "day"
    else if 0 <? diffHour then ago diffHour "hour"
    else if 0 <? diffMin then ago diffMin "minute"
    else "Just now".

End UtilsText.

(** ** background/api-handler.js: language detection

    The regular expressions of [detectLanguageFromTitle] are character
    classes over UTF-16 code units, so the title is taken here as the
    sequence of its code units. *)

Module ApiText.

Definition between (lo hi u : N) : bool := ((lo <=? u) && (u <=? hi))%N.

(** The classes [[\u3040-\u309f\u30a0-\u30ff\u4e00-\u9faf]] (Japanese),
    [[\uac00-\ud7af]], [[\u0400-\u04ff]], [[\u0600-\u06ff]] and
    [[\u4e00-\u9fff]]. *)
Definition japanese (u : N) : bool :=
  between 0x3040 0x309f u || between 0x30a0 0x30ff u || between 0x4e00 0x9faf u.
Definition korean (u : N) : bool := between 0xac00 0xd7af u.
Definition cyrillic (u : N) : bool := between 0x0400 0x04ff u.
Definition arabic (u : N) : bool := between 0x0600 0x06ff u.
Definition chinese (u : N) : bool := between 0x4e00 0x9fff u.

(** [regex.test(title)] for a one-character class. *)
Definition test (cls : N → bool) (title : list N) : bool :=
  existsb cls title.

Definition detectLanguageFromTitle (title : list N) : option string :=
  if bool_decide (title = []) then None
  else
    let hasJapanese := test japanese title in
    let hasKorean := test korean title in
    let hasCyrillic := test cyrillic title in
    let hasArabic := test arabic title in
    let hasChinese := test chinese title in
    if hasJapanese then Some "ja"
    else if hasKorean then Some "ko"
    else if hasCyrillic then Some "ru"
    else if hasArabic then Some "ar"
    else if hasChinese then Some "zh"
    else None.

End ApiText.

(** ** background/storage-manager.js: filters and the available codes *)

Module StorageReads.
Import Eff.

(** [{ ...DEFAULT_FILTERS, ...(stored || {}) }]: a stored filter object
    without [sortBy] takes the default sort key. *)
Definition getFilters : M Filters :=
  s ← get_store;
  mret (match filters s with
        | Some stored =>
            {| selectedLanguages := selectedLanguages stored;
               selectedCountries := selectedCountries stored;
               sortBy := sortBy stored ∪ sortBy Constants.DEFAULT_FILTERS;
               searchQuery := searchQuery stored |}
        | None => Constants.DEFAULT_FILTERS
        end).

Definition saveFilters (new_filters : Filters) : M unit :=
  Storage.storage_set {| settings := None; videos := None;
                         filters := Some new_filters;
                         lastCaptureTimestamp := None;
                         captureHistory := None |}.

(** [code && code !== 'unknown'] *)
Definition known (code : string) : bool :=
  Js.truthy_string code && negb (bool_decide (code = "unknown")).

(** The callback of [videos.forEach] in [getAvailableLanguages]. *)
Definition add_languages (languages : list string) (video : Video)
  : list string :=
  let languages :=
    if known (defaultLanguage video)
    then JsSet.add (defaultLanguage video) languages else languages in
  if known (defaultAudioLanguage video)
  then JsSet.add (defaultAudioLanguage video) languages else languages.

(** The callback of [videos.forEach] in [getAvailableCountries]. *)
Definition add_country (countries : list string) (video : Video)
  : list string :=
  if known (regionCode video)
  then JsSet.add (regionCode video) countries else countries.

Section WithHost.
Context (host : Host).

Definition getAvailableLanguages : M (list string) :=
  videos ← Storage.getVideos host None;
  let languages := foldl add_languages [] videos in
  mret (Js.sort JsString.compare languages).

Definition getAvailableCountries : M (list string) :=
  videos ← Storage.getVideos host None;
  let countries := foldl add_country [] videos in
  mret (Js.sort JsString.compare countries).
End WithHost.
End StorageReads.

(** ** pages/feed/feed.js: the filter controls *)

Module FeedControls.

(** The address of the tab that [openVideo] creates. *)
Definition openVideo (videoId : string) : string :=
  "https://www.youtube.com/watch?v=" +:+ videoId.

Section WithHost.
Context (host : Host).

(** [selectedLanguages] and [selectedCountries] are the values of the two
    multiselects and [sortValue] is [sortSelect.value]; the search query
    is kept. *)
Definition handleFilterChange (selectedLanguages selectedCountries : list string)
    (sortValue : string) (st : Feed.State) : Feed.State :=
  Feed.applyFilters host
    {| Feed.allVideos := Feed.allVideos st;
       Feed.filteredVideos := Feed.filteredVideos st;
       Feed.currentFilters :=
         {| selectedLanguages := selectedLanguages;
            selectedCountries := selectedCountries;
            sortBy := Some sortValue;
            searchQuery := searchQuery (Feed.currentFilters st) |} |}.

Definition clearFilters (st : Feed.State) : Feed.State :=
  Feed.applyFilters host
    {| Feed.allVideos := Feed.allVideos st;
       Feed.filteredVideos := Feed.filteredVideos st;
       Feed.currentFilters :=
         {| selectedLanguages := []; selectedCountries := [];
            sortBy := Some "date"; searchQuery := "" |} |}.
End WithHost.
End FeedControls.

(** ** background/service-worker.js: the message handlers

    A handler's value is what it passes to [sendResponse], together with
    the messages it hands to [broadcastToFeedPages]. *)

Module Worker.
Import Eff.

Inductive Reply (A : Type) :=
  | Success (data : A)
  | Failure (error : string).
Arguments Success {A} data.
Arguments Failure {A} error.

Inductive Broadcast :=
  | CAPTURE_ERROR (error : string)
  | CAPTURE_COMPLETE (videoCount quotaUsed : Z).

Record VideosData := {
  data_videos : list Video;
  data_lastCaptureTimestamp : Z;
  data_availableLanguages : list string;
  data_availableCountries : list string;
  data_storageUsage : Storage.StorageUsage
}.

Record SettingsData := {
  data_settings : Settings;
  data_filters : Filters;
  data_usage : Storage.StorageUsage
}.

(** [settings.apiKey] as [getSettings] reports it. *)
Definition configured_key (s : Store) : string :=
  apiKey (Storage.spread_settings Constants.DEFAULT_SETTINGS
            (default Storage.no_settings (settings s))).

Section WithHost.
Context (host : Host).

(** The reply carries [videoCount]. *)
Definition handleCaptureVideos (videoIds : list string)
  : M (Reply Z * list Broadcast) :=
  if decide (length videoIds = 0%nat)
  then mret (Failure "No video IDs provided", [])
  else
    settings ← Storage.getSettings;
    if negb (Js.truthy_string (apiKey settings))
    then mret (Failure "API key not configured",
               [CAPTURE_ERROR "API key not configured. Please go to Settings."])
    else
      let quotaUsage := Api.estimateQuotaUsage (Z.of_nat (length videoIds)) in
      try_catch
        (videos ← Api.fetchVideoDetails host videoIds (apiKey settings);
         if decide (length videos = 0%nat)
         then mret (Failure "No videos fetched from API", [])
         else
           Storage.saveVideos host videos;;
           mret (Success (Z.of_nat (length videos)),
                 [CAPTURE_COMPLETE (Z.of_nat (length videos)) quotaUsage]))
        (λ error, mret (Failure error, [CAPTURE_ERROR error])).

(** [filters] is [data?.filters || null]. *)
Definition handleGetVideos (filters : option Filters) : M (Reply VideosData) :=
  try_catch
    (videos ← Storage.getVideos host filters;
     lastCaptureTimestamp ← Storage.getLastCaptureTimestamp;
     availableLanguages ← StorageReads.getAvailableLanguages host;
     availableCountries ← StorageReads.getAvailableCountries host;
     storageUsage ← Storage.getStorageUsage host;
     mret (Success {| data_videos := videos;
                      data_lastCaptureTimestamp := lastCaptureTimestamp;
                      data_availableLanguages := availableLanguages;
                      data_availableCountries := availableCountries;
                      data_storageUsage := storageUsage |}))
    (λ error, mret (Failure error)).

Definition handleGetSettings : M (Reply SettingsData) :=
  try_catch
    (settings ← Storage.getSettings;
     filters ← StorageReads.getFilters;
     storageUsage ← Storage.getStorageUsage host;
     mret (Success {| data_settings := settings;
                      data_filters := filters;
                      data_usage := storageUsage |}))
    (λ error, mret (Failure error)).

Definition handleClearVideos : M (Reply unit) :=
  try_catch
    (Storage.clearVideos;; mret (Success tt))
    (λ error, mret (Failure error)).

(** [const { settings, filters } = data]: either may be absent. *)
Definition handleSaveSettings (settings : option StoredSettings)
    (filters : option Filters) : M (Reply unit) :=
  try_catch
    (match settings with
     | Some settings => Storage.saveSettings settings
     | None => mret tt
     end;;
     match filters with
     | Some filters => StorageReads.saveFilters filters
     | None => mret tt
     end;;
     mret (Success tt))
    (λ error, mret (Failure error)).
End WithHost.
End Worker.

(** ** pages/options/options.js: saving the settings form *)

Module Options.
Import Eff.



(** The page's [settings] object as the value written under the settings
    key: it has every field. *)
Definition as_stored (settings : Settings) : StoredSettings := {|
  stored_apiKey := Some (apiKey settings);
  stored_autoCapture := Some (autoCapture settings);
  stored_captureInterval := Some (captureInterval settings);
  stored_maxStoredVideos := Some (maxStoredVideos settings);
  stored_targetVideoCount := Some (targetVideoCount settings)
|}.



Section WithHost.
Context (host : Host).



End WithHost.
End Options.

(** ** content/youtube-scraper.js: the scroll loop *)

Module Scraper.

(** The variables of [autoScroll]. *)
Record Loop := {
  previousCount : Z;
  currentCount : Z;
  scrollAttempts : nat;
  noNewVideosCount : nat
}.

Definition maxScrollAttempts : nat := 20.
Definition noNewVideosThreshold : nat := 3.

(** The test of the [while]:
    [currentCount < targetCount && scrollAttempts < maxScrollAttempts]. *)
Definition scrolling (targetCount : Z) (l : Loop) : bool :=
  (currentCount l <? targetCount)
  && bool_decide (scrollAttempts l < maxScrollAttempts)%nat.

(** The loop. [found n] is [extractVideoIds().length] as the page stands
    after [n] scrolls; [fuel] bounds the number of iterations. A turn
    that ends in [break] leaves [previousCount] and [scrollAttempts] as
    they are. *)
Fixpoint scroll_loop (found : nat → Z) (targetCount : Z) (fuel : nat)
    (l : Loop) : option Loop :=
  if scrolling targetCount l
  then
    match fuel with
    | O => None
    | S fuel' =>
        let currentCount := found (scrollAttempts l) in
        if currentCount =? previousCount l
        then
          let noNewVideosCount := S (noNewVideosCount l) in
          if bool_decide (noNewVideosThreshold <= noNewVideosCount)%nat
          then Some {| previousCount := previousCount l;
                       currentCount := currentCount;
                       scrollAttempts := scrollAttempts l;
                       noNewVideosCount := noNewVideosCount |}
          else scroll_loop found targetCount fuel'
                 {| previousCount := currentCount;
                    currentCount := currentCount;
                    scrollAttempts := S (scrollAttempts l);
                    noNewVideosCount := noNewVideosCount |}
        else scroll_loop found targetCount fuel'
               {| previousCount := currentCount;
                  currentCount := currentCount;
                  scrollAttempts := S (scrollAttempts l);
                  noNewVideosCount := 0 |}
    end
  else Some l.

(** The loop has stopped at [l] for one of its two reasons: the test of
    the [while] fails, or the third scroll in a row found nothing new. *)
Definition stopped (targetCount : Z) (l : Loop) : Prop :=
  scrolling targetCount l = false ∨
  (noNewVideosThreshold <= noNewVideosCount l)%nat.

Definition start : Loop :=
  {| previousCount := 0; currentCount := 0; scrollAttempts := 0;
     noNewVideosCount := 0 |}.

(** The loop of [autoScroll(targetCount)], run with [fuel] iterations. *)
Definition autoScroll (found : nat → Z) (targetCount : Z) (fuel : nat)
  : option Loop :=
  scroll_loop found targetCount fuel start.

End Scraper.

(** * Properties *)

(** ** Arrays: slice *)

Ltac case_ltb :=
  repeat match goal with
         | |- context [?a <? ?b] => destruct (Z.ltb_spec a b)
         end.

Section SliceFacts.
Context {A : Type}.
Implicit Types l : list A.

Lemma slice_0 l (n : Z) :
  Js.slice l 0 n = take (Z.to_nat (Js.relative_index (Z.of_nat (length l)) n)) l.
Proof.
  unfold Js.slice. replace (Js.relative_index (Z.of_nat (length l)) 0) with 0.
  - by rewrite Z.sub_0_r.
  - unfold Js.relative_index. case_ltb; lia.
Qed.

Lemma slice_0_nonneg l (n : Z) :
  0 <= n → Js.slice l 0 n = take (Z.to_nat n) l.
Proof.
  intros Hn. rewrite slice_0. unfold Js.relative_index. case_ltb; try lia.
  destruct (Z.min_spec n (Z.of_nat (length l))) as [[Hm ->]|[Hm ->]]; [done|].
  rewrite !take_ge; [done| |]; lia.
Qed.

Lemma slice_0_neg l (n : Z) :
  n < 0 → Js.slice l 0 n = take (length l - Z.to_nat (- n)) l.
Proof.
  intros Hn. rewrite slice_0. unfold Js.relative_index. case_ltb; try lia.
  f_equal. lia.
Qed.

Lemma slice_0_prefix l (n : Z) : Js.slice l 0 n `prefix_of` l.
Proof.
  destruct (decide (0 <= n)).
  - rewrite slice_0_nonneg by done. apply prefix_take.
  - rewrite slice_0_neg by lia. apply prefix_take.
Qed.

Lemma slice_from_neg l (n : nat) :
  (0 < n)%nat → Js.slice_from l (- Z.of_nat n) = drop (length l - n) l.
Proof.
  intros Hn.
  unfold Js.slice_from, Js.slice, Js.relative_index. case_ltb; try lia.
  rewrite Z.min_id.
  replace (Z.to_nat (Z.max (Z.of_nat (length l) + - Z.of_nat n) 0))
    with (length l - n)%nat by lia.
  apply take_ge. rewrite length_drop. lia.
Qed.

Lemma slice_nonneg l (i j : nat) :
  (i <= j)%nat → Js.slice l (Z.of_nat i) (Z.of_nat j) = take (j - i) (drop i l).
Proof.
  intros Hij. unfold Js.slice, Js.relative_index. case_ltb; try lia.
  destruct (decide (i <= length l)%nat).
  - rewrite (Z.min_l (Z.of_nat i)) by lia. rewrite Nat2Z.id.
    destruct (decide (j <= length l)%nat).
    + rewrite Z.min_l by lia. f_equal. lia.
    + rewrite Z.min_r by lia.
      rewrite !take_ge; [done| |]; rewrite length_drop; lia.
  - rewrite !Z.min_r by lia. rewrite Z.sub_diag. simpl.
    rewrite Nat2Z.id. rewrite (drop_ge l i) by lia. by rewrite drop_all, !take_nil.
Qed.
End SliceFacts.

(** ** Arrays: sort *)

Section SortFacts.
Context {A : Type} (cmp : A → A → Z).
Implicit Types l : list A.

Lemma sort_insert_perm x l : Js.sort_insert cmp x l ≡ₚ x :: l.
Proof.
  induction l as [|y l IH]; simpl; [done|].
  destruct (cmp x y <=? 0); [done|].
  rewrite IH. apply Permutation_swap.
Qed.

Lemma sort_perm l : Js.sort cmp l ≡ₚ l.
Proof.
  induction l as [|x l IH]; simpl; [done|].
  by rewrite sort_insert_perm, IH.
Qed.

Lemma sort_length l : length (Js.sort cmp l) = length l.
Proof. by rewrite sort_perm. Qed.

Context {cmp_ok : Js.Consistent cmp}.

Lemma cmp_total a b : cmp a b <= 0 ∨ cmp b a <= 0.
Proof.
  destruct (decide (cmp a b <= 0)); [by left|right].
  assert (cmp b a < 0); [|lia]. apply Js.cmp_antisym. lia.
Qed.

Lemma tied_sym a b : cmp a b = 0 → cmp b a = 0.
Proof.
  intros H.
  pose proof (Js.cmp_antisym (cmp:=cmp) a b).
  pose proof (Js.cmp_antisym (cmp:=cmp) b a). lia.
Qed.

Lemma tied_trans a b c : cmp a b = 0 → cmp b c = 0 → cmp a c = 0.
Proof.
  intros H1 H2.
  pose proof (tied_sym _ _ H1). pose proof (tied_sym _ _ H2).
  assert (cmp a c <= 0) by (apply (Js.cmp_trans a b c); lia).
  assert (cmp c a <= 0) by (apply (Js.cmp_trans c b a); lia).
  pose proof (Js.cmp_antisym (cmp:=cmp) a c).
  pose proof (Js.cmp_antisym (cmp:=cmp) c a). lia.
Qed.

Lemma sort_insert_sorted x l :
  StronglySorted (Order.not_after cmp) l →
  StronglySorted (Order.not_after cmp) (Js.sort_insert cmp x l).
Proof.
  induction 1 as [|y l Hs IH Hy]; simpl.
  - repeat constructor.
  - destruct (cmp x y <=? 0) eqn:E.
    + apply Z.leb_le in E. constructor; [by constructor|].
      constructor; [done|].
      eapply Forall_impl; [exact Hy|]. intros z Hz.
      unfold Order.not_after in *. by apply (Js.cmp_trans x y z).
    + apply Z.leb_gt in E. constructor; [done|].
      rewrite sort_insert_perm. constructor; [|done].
      unfold Order.not_after. destruct (cmp_total x y); lia.
Qed.

Lemma sort_sorted l : StronglySorted (Order.not_after cmp) (Js.sort cmp l).
Proof.
  induction l as [|x l IH]; simpl; [constructor|].
  by apply sort_insert_sorted.
Qed.

Lemma sort_insert_tied x a l :
  filter (Order.tied cmp x) (Js.sort_insert cmp a l)
  = filter (Order.tied cmp x) (a :: l).
Proof.
  induction l as [|y l IH]; simpl; [done|].
  destruct (cmp a y <=? 0) eqn:E; [reflexivity|]. apply Z.leb_gt in E.
  rewrite (filter_cons _ y), IH, !(filter_cons _ a), (filter_cons _ y).
  destruct (decide (Order.tied cmp x y)) as [Hy|]; [|done].
  destruct (decide (Order.tied cmp x a)) as [Ha|]; [|done].
  unfold Order.tied in *.
  pose proof (tied_trans a x y (tied_sym _ _ Ha) Hy). lia.
Qed.

Lemma sort_stable l x :
  filter (Order.tied cmp x) (Js.sort cmp l) = filter (Order.tied cmp x) l.
Proof.
  induction l as [|a l IH]; simpl; [done|].
  by rewrite sort_insert_tied, !filter_cons, IH.
Qed.


(** Sorting a sorted list changes nothing. *)
Lemma sort_sorted_id l :
  StronglySorted (Order.not_after cmp) l → Js.sort cmp l = l.
Proof.
  induction 1 as [|x l Hs IH Hx]; simpl; [done|].
  rewrite IH. destruct l as [|y l]; simpl; [done|].
  apply Forall_cons in Hx as [Hxy _]. unfold Order.not_after in Hxy.
  destruct (cmp x y <=? 0) eqn:E; [done|]. apply Z.leb_gt in E. lia.
Qed.
Lemma tied_refl a : cmp a a = 0.
Proof. pose proof (Js.cmp_antisym (cmp:=cmp) a a). lia. Qed.

Lemma sorted_tied_unique r s :
  StronglySorted (Order.not_after cmp) r →
  StronglySorted (Order.not_after cmp) s →
  r ≡ₚ s →
  (∀ x, filter (Order.tied cmp x) r = filter (Order.tied cmp x) s) →
  r = s.
Proof.
  revert s. induction r as [|a r IH]; intros s Hr Hs Hperm Hf.
  - by apply Permutation_nil_l in Hperm.
  - destruct s as [|b s]; [by apply Permutation_nil_r in Hperm|].
    apply StronglySorted_inv in Hr as [Hr Ha].
    apply StronglySorted_inv in Hs as [Hs Hb].
    assert (cmp a b <= 0) as Hab.
    { assert (b ∈ a :: r) as Hin by (rewrite Hperm; apply list_elem_of_here).
      apply elem_of_cons in Hin as [->|Hin]; [by rewrite tied_refl|].
      by eapply Forall_forall in Ha. }
    assert (cmp b a <= 0) as Hba.
    { assert (a ∈ b :: s) as Hin by (rewrite <- Hperm; apply list_elem_of_here).
      apply elem_of_cons in Hin as [->|Hin]; [by rewrite tied_refl|].
      by eapply Forall_forall in Hb. }
    assert (cmp a b = 0) as Htied.
    { pose proof (Js.cmp_antisym (cmp:=cmp) a b). lia. }
    assert (a = b) as <-.
    { specialize (Hf a). rewrite !filter_cons in Hf.
      rewrite (decide_True (P:=Order.tied cmp a a)) in Hf by apply tied_refl.
      rewrite (decide_True (P:=Order.tied cmp a b)) in Hf by done.
      by injection Hf. }
    f_equal. apply IH; [done|done|by apply Permutation_cons_inv in Hperm|].
    intros x. specialize (Hf x). rewrite !filter_cons in Hf.
    destruct (decide (Order.tied cmp x a)); [by injection Hf|done].
Qed.

(** The ECMAScript contract determines the result: a stable sorted
    arrangement of [l] is [Js.sort cmp l]. *)
Lemma stable_sort_unique l r :
  Order.stable_sort_of cmp l r → r = Js.sort cmp l.
Proof.
  intros (Hperm & Hsorted & Hstable).
  apply sorted_tied_unique; [done|by apply sort_sorted| |].
  - by rewrite Hperm, sort_perm.
  - intros x. by rewrite Hstable, sort_stable.
Qed.
End SortFacts.

Lemma StronglySorted_sublist {A} (R : relation A) (l1 l2 : list A) :
  l1 `sublist_of` l2 → StronglySorted R l2 → StronglySorted R l1.
Proof.
  induction 1 as [|x l1 l2 Hsub IH|x l1 l2 Hsub IH]; intros Hs.
  - constructor.
  - apply StronglySorted_inv in Hs as [Hs Hx]. constructor; [by apply IH|].
    eapply Forall_forall. intros y Hy. eapply Forall_forall in Hx; [done|].
    by eapply sublist_subseteq.
  - apply StronglySorted_inv in Hs as [Hs _]. by apply IH.
Qed.

Lemma StronglySorted_impl {A} (R R' : relation A) (l : list A) :
  (∀ a b, R a b → R' a b) → StronglySorted R l → StronglySorted R' l.
Proof.
  intros HR. induction 1 as [|x l Hs IH Hx]; constructor; [done|].
  eapply Forall_impl; [exact Hx|]. intros y. apply HR.
Qed.

Lemma prefix_sublist {A} (l1 l2 : list A) :
  l1 `prefix_of` l2 → l1 `sublist_of` l2.
Proof. intros [k ->]. by apply sublist_inserts_r. Qed.

Lemma StronglySorted_prefix {A} (R : relation A) (l1 l2 : list A) :
  l1 `prefix_of` l2 → StronglySorted R l2 → StronglySorted R l1.
Proof. intros Hp. by apply StronglySorted_sublist, prefix_sublist. Qed.

Global Instance by_date_consistent : Js.Consistent Storage.by_date.
Proof. split; unfold Storage.by_date; intros; lia. Qed.

Global Instance by_views_consistent : Js.Consistent Storage.by_views.
Proof. split; unfold Storage.by_views; intros; lia. Qed.


(** ** shared/utils.js *)

Section DedupFacts.
Context {A : Type} `{Countable K} (key : A → K).
Implicit Types (l : list A) (seen : gset K).

Lemma dedup_filter_sublist seen l :
  Utils.dedup_filter key seen l `sublist_of` l.
Proof.
  revert seen. induction l as [|x l IH]; intros seen; simpl; [done|].
  destruct (decide (key x ∈ seen)).
  - by apply sublist_cons.
  - by apply sublist_skip.
Qed.

Lemma dedup_filter_fresh seen l x :
  x ∈ Utils.dedup_filter key seen l → key x ∉ seen.
Proof.
  revert seen. induction l as [|y l IH]; intros seen; simpl.
  - by intros ?%elem_of_nil.
  - destruct (decide (key y ∈ seen)); [by apply IH|].
    intros [->|Hx%IH]%elem_of_cons; [done|]. set_solver.
Qed.

Lemma dedup_filter_NoDup seen l :
  NoDup (key <$> Utils.dedup_filter key seen l).
Proof.
  revert seen. induction l as [|y l IH]; intros seen; simpl.
  - constructor.
  - destruct (decide (key y ∈ seen)); [by apply IH|].
    rewrite fmap_cons. constructor; [|by apply IH].
    intros (x & Hk & Hx%dedup_filter_fresh)%list_elem_of_fmap. set_solver.
Qed.

(** Of the records carrying key [k], exactly the first one survives,
    unless [k] has been seen before. *)
Lemma dedup_filter_by_key seen l k :
  filter (λ x, key x = k) (Utils.dedup_filter key seen l)
  = if decide (k ∈ seen) then []
    else option_list (head (filter (λ x, key x = k) l)).
Proof.
  revert seen. induction l as [|y l IH]; intros seen; simpl.
  - by destruct (decide (k ∈ seen)).
  - rewrite (filter_cons _ y).
    destruct (decide (key y ∈ seen)) as [Hy|Hy].
    + rewrite IH. destruct (decide (k ∈ seen)) as [|Hk]; [done|].
      destruct (decide (key y = k)) as [<-|]; done.
    + rewrite filter_cons, IH.
      destruct (decide (key y = k)) as [<-|Hne].
      * rewrite decide_True by set_solver.
        by rewrite (decide_False (P:=key y ∈ seen)).
      * destruct (decide (k ∈ seen)).
        -- rewrite decide_True; [done|]. apply elem_of_union. by right.
        -- rewrite decide_False; [done|].
           intros [?%elem_of_singleton|?]%elem_of_union; congruence.
Qed.

Lemma deduplicateBy_by_key l k :
  filter (λ x, key x = k) (Utils.deduplicateBy l key)
  = option_list (head (filter (λ x, key x = k) l)).
Proof.
  unfold Utils.deduplicateBy. rewrite dedup_filter_by_key.
  by rewrite decide_False by set_solver.
Qed.

Lemma dedup_filter_distinct seen l :
  NoDup (key <$> l) → (∀ x, x ∈ l → key x ∉ seen) →
  Utils.dedup_filter key seen l = l.
Proof.
  revert seen. induction l as [|y l IH]; intros seen Hnd Hseen; simpl; [done|].
  apply NoDup_cons in Hnd as [Hy Hnd].
  rewrite decide_False by (apply Hseen, list_elem_of_here).
  f_equal. apply IH; [done|]. intros x Hx.
  intros [Hk%elem_of_singleton|Hk]%elem_of_union.
  - apply Hy. rewrite <- Hk. by apply list_elem_of_fmap_2.
  - by apply (Hseen x); [apply list_elem_of_further|].
Qed.

(** Records with pairwise distinct keys all survive. *)
Lemma deduplicateBy_distinct l :
  NoDup (key <$> l) → Utils.deduplicateBy l key = l.
Proof.
  intros Hnd. apply dedup_filter_distinct; [done|].
  intros x _. apply not_elem_of_empty.
Qed.
End DedupFacts.

Section ChunkFacts.
Context {A : Type}.
Implicit Types l : list A.

Lemma chunk_loop_concat l size fuel i :
  (0 < size)%nat → (length l - i <= fuel)%nat →
  concat (Utils.chunk_loop l size fuel i) = drop i l.
Proof.
  intros Hsize. revert i. induction fuel as [|fuel IH]; intros i Hfuel; simpl.
  - rewrite drop_ge; [done|lia].
  - destruct (decide (i < length l)%nat).
    + simpl. rewrite IH by lia. rewrite slice_nonneg by lia.
      replace (i + size - i)%nat with size by lia.
      rewrite <- drop_drop. apply take_drop.
    + rewrite drop_ge; [done|lia].
Qed.

(** Chunking loses nothing and keeps the order. *)
Lemma chunkArray_concat l size :
  (0 < size)%nat → concat (Utils.chunkArray l size) = l.
Proof. intros. unfold Utils.chunkArray. rewrite chunk_loop_concat; [done..|lia]. Qed.
End ChunkFacts.

(** ** background/storage-manager.js: what a run does *)

Ltac run_m :=
  unfold mbind, M_bind, Eff.bind, mret, M_ret, Eff.ret, Eff.get_store,
    Storage.storage_set, Storage.now; simpl.

Lemma bind_run {A B} (m : Eff.M A) (k : A → Eff.M B) (w : World) :
  (m ≫= k) w = match m w with
                | (Ok a, w') => k a w'
                | (Throw e, w') => (Throw e, w')
                end.
Proof. reflexivity. Qed.

Section StorageRuns.
Context (host : Host).
Implicit Types (w : World) (s : Store).

Lemma getVideos_run w :
  Storage.getVideos host None w = (Ok (Obs.stored_videos (store w)), w).
Proof. reflexivity. Qed.

Lemma getSettings_run w :
  Storage.getSettings w =
  (Ok (Storage.spread_settings Constants.DEFAULT_SETTINGS
         (default Storage.no_settings (settings (store w)))), w).
Proof. reflexivity. Qed.

Lemma threshold_80 : (Constants.WARNING_THRESHOLD * 100 == 80)%Q.
Proof. reflexivity. Qed.

Lemma evicts_iff s : Obs.evicts host s = true ↔ (80 < Obs.percentage host s)%Q.
Proof.
  unfold Obs.evicts. rewrite negb_true_iff, <- not_true_iff_false, Qle_bool_iff.
  rewrite threshold_80. split; [apply Qnot_le_lt | apply Qlt_not_le].
Qed.

Lemma checkAndEvictIfNeeded_run videos w :
  Storage.checkAndEvictIfNeeded host videos w =
  if Obs.evicts host (store w)
  then (Ok (Obs.evicted host (store w) videos),
        {| store := Storage.write_items
                      (Obs.only_videos (Obs.evicted host (store w) videos)) (store w);
           clock := clock w;
           trace := trace w ++
                    [EvStorageSet (Obs.only_videos (Obs.evicted host (store w) videos))] |})
  else (Ok videos, w).
Proof.
  unfold Storage.checkAndEvictIfNeeded, Storage.getStorageUsage. run_m.
  fold (Obs.percentage host (store w)). fold (Obs.evicts host (store w)).
  by destruct (Obs.evicts host (store w)).
Qed.

Lemma saveVideos_run r rs w :
  let newVideos := r :: rs in
  let s := store w in
  let kept := Obs.count_truncated s newVideos in
  let entry := {| timestamp := Date_now host (S (clock w));
                  videoCount := Z.of_nat (length newVideos) |} in
  Storage.saveVideos host newVideos w =
  (Ok tt,
   {| store := {| settings := settings s;
                  videos := Some kept;
                  filters := filters s;
                  lastCaptureTimestamp := Some (Date_now host (clock w));
                  captureHistory :=
                    Some (Js.slice_from (Obs.history s ++ [entry]) (-50)) |};
      clock := S (S (clock w));
      trace := trace w ++
               (if Obs.evicts host s
                then [EvStorageSet (Obs.only_videos (Obs.evicted host s kept))]
                else []) ++
               [EvStorageSet {| settings := None; videos := Some kept;
                                filters := None;
                                lastCaptureTimestamp := Some (Date_now host (clock w));
                                captureHistory := None |};
                EvStorageSet {| settings := None; videos := None;
                                filters := None;
                                lastCaptureTimestamp := None;
                                captureHistory :=
                                  Some (Js.slice_from (Obs.history s ++ [entry]) (-50)) |}] |}).
Proof.
  intros. unfold Storage.saveVideos.
  rewrite decide_False by done.
  rewrite bind_run, getVideos_run, bind_run, getSettings_run.
  rewrite bind_run, checkAndEvictIfNeeded_run.
  fold s. fold (Obs.configured_max s). fold (Obs.ceiling s).
  fold (Obs.merged s newVideos). fold (Obs.count_truncated s newVideos). fold kept.
  unfold Storage.updateCaptureHistory.
  destruct (Obs.evicts host s); run_m;
    rewrite <- ?(assoc_L (++)); unfold Storage.write_items, Obs.history;
    simpl; fold s;
    destruct (settings s), (videos s), (filters s),
      (lastCaptureTimestamp s), (captureHistory s); reflexivity.
Qed.
End StorageRuns.

(** ** Byte-size eviction: the target count *)

Section TargetCount.
Implicit Types (n : nat) (pct : Q).



Lemma targetCount_div n (a b : positive) :
  Storage.targetCount n (Z.pos a # b)
  = (Z.of_nat n * (600 * Z.pos b)) `div` (10 * Z.pos a).
Proof. reflexivity. Qed.

Lemma above_80_pos pct :
  (80 < pct)%Q → ∃ a b, pct = Z.pos a # b ∧ 80 * Z.pos b < Z.pos a.
Proof.
  destruct pct as [[|a|a] b]; unfold Qlt; simpl; intros Hlt; try lia.
  exists a, b. split; [done|lia].
Qed.

Lemma targetCount_bounds n pct :
  (80 < pct)%Q → 0 <= Storage.targetCount n pct <= Z.of_nat n.
Proof.
  intros (a & b & -> & Hab)%above_80_pos. rewrite targetCount_div. split.
  - apply Z.div_pos; lia.
  - apply Z.div_le_upper_bound; nia.
Qed.

Lemma targetCount_lt n pct :
  (80 < pct)%Q → (0 < n)%nat → Storage.targetCount n pct < Z.of_nat n.
Proof.
  intros (a & b & -> & Hab)%above_80_pos Hn. rewrite targetCount_div.
  apply Z.div_lt_upper_bound; nia.
Qed.



End TargetCount.

(** ** The merge: saveVideos *)

Section MergeFacts.
Context (host : Host).
Implicit Types (w : World) (s : Store).

Lemma saveVideos_value r rs w :
  Obs.value (Storage.saveVideos host (r :: rs)) w = Ok tt.
Proof. unfold Obs.value. by rewrite saveVideos_run. Qed.

Lemma saveVideos_videos r rs w :
  videos (store (Obs.run (Storage.saveVideos host (r :: rs)) w))
  = Some (Obs.count_truncated (store w) (r :: rs)).
Proof. unfold Obs.run. by rewrite saveVideos_run. Qed.

Lemma saveVideos_history r rs w :
  Obs.history (store (Obs.run (Storage.saveVideos host (r :: rs)) w))
  = Obs.last50 (Obs.history (store w) ++ [Obs.entry_of host (clock w) 0 (r :: rs)]).
Proof.
  unfold Obs.run. rewrite saveVideos_run. unfold Obs.history at 1. simpl.
  change (-50) with (- Z.of_nat 50). rewrite slice_from_neg by lia.
  unfold Obs.last50, Obs.entry_of. by rewrite Nat.add_0_r, Nat.add_1_r.
Qed.

Lemma saveVideos_clock r rs w :
  clock (Obs.run (Storage.saveVideos host (r :: rs)) w) = S (S (clock w)).
Proof. unfold Obs.run. by rewrite saveVideos_run. Qed.

Lemma merged_sorted s newVideos :
  StronglySorted newest_first (Obs.merged s newVideos).
Proof.
  unfold Obs.merged.
  eapply (StronglySorted_impl (Order.not_after Storage.by_date)).
  - intros a b. unfold Order.not_after, Storage.by_date, newest_first. lia.
  - apply sort_sorted, _.
Qed.

Lemma count_truncated_prefix s newVideos :
  Obs.count_truncated s newVideos `prefix_of` Obs.merged s newVideos.
Proof.
  unfold Obs.count_truncated. case_decide; [apply slice_0_prefix|done].
Qed.

Lemma count_truncated_length s newVideos :
  0 < Obs.ceiling s →
  Z.of_nat (length (Obs.count_truncated s newVideos)) <= Obs.ceiling s.
Proof.
  intros Hpos. unfold Obs.count_truncated. case_decide; [|lia].
  rewrite slice_0_nonneg by lia. rewrite length_take. lia.
Qed.

Lemma count_truncated_take s newVideos :
  0 <= Obs.ceiling s →
  Obs.count_truncated s newVideos
  = take (Z.to_nat (Obs.ceiling s)) (Obs.merged s newVideos).
Proof.
  intros Hpos. unfold Obs.count_truncated. case_decide.
  - by apply slice_0_nonneg.
  - rewrite take_ge; [done|lia].
Qed.

Lemma count_truncated_nonempty s r rs :
  0 < Obs.ceiling s → Obs.count_truncated s (r :: rs) ≠ [].
Proof.
  intros Hpos.
  assert (0 < length (Obs.merged s (r :: rs)))%nat as Hlen.
  { unfold Obs.merged. rewrite sort_length.
    unfold Obs.deduplicated, Utils.deduplicateBy.
    destruct (Obs.stored_videos s) as [|x l]; simpl;
      rewrite decide_False by apply not_elem_of_empty; simpl; lia. }
  unfold Obs.count_truncated. case_decide.
  - rewrite slice_0_nonneg by lia. intros Hnil%(f_equal length).
    rewrite length_take in Hnil. simpl in Hnil. lia.
  - intros Hnil. rewrite Hnil in Hlen. simpl in Hlen. lia.
Qed.


Lemma merged_NoDup s newVideos : NoDup (id <$> Obs.merged s newVideos).
Proof.
  unfold Obs.merged. rewrite sort_perm. apply dedup_filter_NoDup.
Qed.
End MergeFacts.

(** ** Properties of the storage lifecycle *)



(** C1. When the eviction check triggers during a merge, the merge writes
    the collection twice: first the eviction-shrunk collection (the newest
    [targetCount] records), then, in its final persist, the count-truncated
    collection that was handed to the eviction check. The value returned by
    [checkAndEvictIfNeeded] is dropped, so the shrink does not survive:
    what remains persisted is strictly longer than the shrunk collection. *)
Theorem C1_final_persist_discards_eviction (host : Host) (r : Video)
    (rs : list Video) (w : World) :
  let newVideos := r :: rs in
  let s := store w in
  let kept := Obs.count_truncated s newVideos in
  let shrunk := Obs.evicted host s kept in
  let w' := Obs.run (Storage.saveVideos host newVideos) w in
  (80 < Obs.percentage host s)%Q →
  kept ≠ [] →
  shrunk = take (Z.to_nat (Storage.targetCount (length kept) (Obs.percentage host s))) kept ∧
  Obs.videos_written (drop (length (trace w)) (trace w')) = [shrunk; kept] ∧
  videos (store w') = Some kept ∧
  (length shrunk < length kept)%nat.
Proof.
  intros newVideos s kept shrunk w' Hpct Hne.
  pose proof (targetCount_bounds (length kept) _ Hpct) as Hb.
  assert (shrunk = take (Z.to_nat (Storage.targetCount (length kept)
                                     (Obs.percentage host s))) kept) as Hshrunk.
  { unfold shrunk, Obs.evicted. by rewrite slice_0_nonneg by lia. }
  split_and!.
  - done.
  - unfold w', newVideos, Obs.run. rewrite saveVideos_run. simpl.
    rewrite drop_app_length.
    apply (evicts_iff host) in Hpct. fold s. rewrite Hpct. done.
  - apply saveVideos_videos.
  - rewrite Hshrunk, length_take.
    assert (0 < length kept)%nat as Hpos by (destruct kept; [done|simpl; lia]).
    pose proof (targetCount_lt (length kept) _ Hpct Hpos). lia.
Qed.

(** C1 on the crowded store, 85.83 percent full, which receives one new
    record. *)
Lemma C1_witness_crowded_store :
  let w := Demo.world Demo.crowded_store in
  let kept := Obs.count_truncated (store w) [Demo.fresh] in
  (80 < Obs.percentage Demo.crowded (store w))%Q ∧
  kept ≠ [] ∧
  videos (store (Obs.run (Storage.saveVideos Demo.crowded [Demo.fresh]) w))
    = Some kept ∧
  (length (Obs.evicted Demo.crowded (store w) kept) < length kept)%nat.
Proof.
  intros w kept.
  assert (80 < Obs.percentage Demo.crowded (store w))%Q as Hpct
    by (vm_compute; reflexivity).
  assert (kept ≠ []) as Hne by (apply count_truncated_nonempty; reflexivity).
  split_and!; [exact Hpct | exact Hne | |];
    apply (C1_final_persist_discards_eviction Demo.crowded Demo.fresh [] w Hpct Hne).
Defined.

(** The failing input of C1, evaluated. The crowded store holds 1000
    records under a ceiling of 1000 and is 85.83 percent full; one new
    record is merged. The eviction step writes the 699 newest records
    ([floor(1000 * 60 / 85.83)]); the final persist then writes the 1000
    count-truncated records, and 1000 remain stored. *)
Example C1_failing_input_evaluated :
  let w := Demo.world Demo.crowded_store in
  let w' := Obs.run (Storage.saveVideos Demo.crowded [Demo.fresh]) w in
  Obs.percentage Demo.crowded (store w) = (8583 # 100)%Q ∧
  Storage.targetCount 1000 (8583 # 100) = 699 ∧
  length <$> Obs.videos_written (trace w') = [699; 1000]%nat ∧
  length (Obs.stored_videos (store w')) = 1000%nat.
Proof.
  intros w w'.
  assert (length Demo.thousand = 1000%nat) as Hlen
    by (unfold Demo.thousand; by rewrite length_fmap, length_seq).
  assert (Obs.percentage Demo.crowded (store w) = (8583 # 100)%Q) as Hpct.
  { unfold Obs.percentage. simpl getBytesInUse.
    unfold Demo.nine_kb_per_video. simpl videos. simpl default. by rewrite Hlen. }
  assert (NoDup (id <$> (Demo.thousand ++ [Demo.fresh]))) as Hids.
  { unfold Demo.thousand, Demo.fresh.
    change [Demo.clip 0] with (Demo.clip <$> [0%nat]).
    rewrite <- fmap_app, <- list_fmap_compose.
    apply NoDup_fmap_2.
    - intros i j Hij. by apply (inj pretty).
    - apply NoDup_app. split_and!; [apply NoDup_seq| |apply NoDup_singleton].
      intros i Hi%elem_of_seq ->%list_elem_of_singleton. lia. }
  assert (length (Obs.merged (store w) [Demo.fresh]) = 1001%nat) as Hmerged.
  { unfold Obs.merged, Obs.deduplicated. rewrite sort_length.
    change (Obs.stored_videos (store w)) with Demo.thousand.
    rewrite (deduplicateBy_distinct id _ Hids), length_app, Hlen. done. }
  assert (length (Obs.count_truncated (store w) [Demo.fresh]) = 1000%nat) as Hkept.
  { rewrite count_truncated_take by done.
    change (Obs.ceiling (store w)) with 1000.
    rewrite length_take, Hmerged. done. }
  assert (Storage.targetCount 1000 (8583 # 100) = 699) as Htarget by reflexivity.
  assert (length (Obs.evicted Demo.crowded (store w)
                    (Obs.count_truncated (store w) [Demo.fresh])) = 699%nat) as Hshrunk.
  { unfold Obs.evicted. rewrite Hkept, Hpct, Htarget.
    rewrite slice_0_nonneg by done. rewrite length_take, Hkept. done. }
  assert (Obs.evicts Demo.crowded (store w) = true) as Hev.
  { apply evicts_iff. by rewrite Hpct. }
  split_and!; [done|done| |].
  - unfold w', Demo.fresh, Obs.run. rewrite saveVideos_run. simpl trace.
    change (length <$> [Obs.evicted Demo.crowded (store w)
                          (Obs.count_truncated (store w) [Demo.fresh]);
                        Obs.count_truncated (store w) [Demo.fresh]]
            = [699; 1000]%nat).
    rewrite !fmap_cons, Hshrunk, Hkept. done.
  - unfold w', Demo.fresh. unfold Obs.stored_videos. rewrite saveVideos_videos.
    exact Hkept.
Qed.

(** The same on a small store: [a, b, c, d] at 85.83 percent receives [e]
    and a re-capture of [a]; the eviction step writes [e, a, b], the final
    persist writes all five. *)
Example C1_small_store_evaluated :
  let w := Demo.world (Demo.store_with Demo.stored None) in
  let w' := Obs.run (Storage.saveVideos Demo.nearly_full Demo.captured) w in
  Obs.ids <$> Obs.videos_written (trace w')
    = [["e"; "a"; "b"]; ["e"; "a"; "b"; "c"; "d"]] ∧
  Obs.ids (Obs.stored_videos (store w')) = ["e"; "a"; "b"; "c"; "d"].
Proof. split; vm_compute; reflexivity. Qed.



(** C3, as stated, fails: with [maxStoredVideos] configured as 0 a merge of
    one record persists one record, more than the configured setting. *)
Lemma C3_counterexample_zero_setting :
  let w := Demo.world (Demo.store_with [] (Some (Js.Num 0))) in
  let w' := Obs.run (Storage.saveVideos Demo.roomy [Demo.video "a" "Alpha" 5 10]) w in
  Obs.configured_max (store w) = Js.Num 0 ∧
  ¬ (Z.of_nat (length (Obs.stored_videos (store w'))) <= 0).
Proof. split; [reflexivity|]. vm_compute. intros H. by apply H. Qed.

(** C3, amended. For every merge of a non-empty list, the persisted
    collection is sorted by capture timestamp, newest first; it is a prefix
    of the sorted, de-duplicated union of the stored and the new records
    (truncation keeps the newest); and its length is at most the effective
    ceiling: the configured [maxStoredVideos] when that is a positive
    number, and 500 when the setting is missing, zero or not a number. *)
Theorem C3_persisted_sorted_and_bounded (host : Host) (r : Video)
    (rs : list Video) (w : World) :
  let newVideos := r :: rs in
  let s := store w in
  let persisted :=
    Obs.stored_videos (store (Obs.run (Storage.saveVideos host newVideos) w)) in
  videos (store (Obs.run (Storage.saveVideos host newVideos) w)) = Some persisted ∧
  StronglySorted newest_first persisted ∧
  persisted `prefix_of`
    Js.sort Storage.by_date (Obs.deduplicated (Obs.stored_videos s) newVideos) ∧
  (∀ n, Obs.configured_max s = Js.Num n → 0 < n →
        Z.of_nat (length persisted) <= n ∧
        persisted = take (Z.to_nat n)
                      (Js.sort Storage.by_date
                         (Obs.deduplicated (Obs.stored_videos s) newVideos))) ∧
  (Obs.stored_max s = None ∨ Obs.configured_max s = Js.Num 0 ∨
   Obs.configured_max s = Js.NaN →
   Z.of_nat (length persisted) <= 500).
Proof.
  intros newVideos s persisted.
  assert (persisted = Obs.count_truncated s newVideos) as Hp.
  { unfold persisted, newVideos, Obs.stored_videos. by rewrite saveVideos_videos. }
  split_and!.
  - rewrite Hp. apply saveVideos_videos.
  - rewrite Hp. eapply StronglySorted_prefix;
      [apply count_truncated_prefix|apply merged_sorted].
  - rewrite Hp. apply count_truncated_prefix.
  - intros n Hn Hpos.
    assert (Obs.ceiling s = n) as Hc.
    { unfold Obs.ceiling. rewrite Hn. simpl. destruct (Z.eqb_spec n 0); [lia|done]. }
    rewrite Hp. split.
    + rewrite <- Hc. apply count_truncated_length. lia.
    + rewrite <- Hc. apply count_truncated_take. lia.
  - intros Hfalsy.
    assert (Obs.ceiling s = 500) as Hc.
    { unfold Obs.ceiling.
      destruct Hfalsy as [Hnone|[-> | ->]]; [|done..].
      unfold Obs.configured_max, Obs.stored_max in *.
      destruct (settings s) as [blob|]; simpl in *; [|done].
      by rewrite Hnone. }
    rewrite Hp, <- Hc. apply count_truncated_length. lia.
Qed.

(** C3 with [maxStoredVideos] configured as 2. *)
Lemma C3_witness_limit_two :
  let w := Demo.world (Demo.store_with Demo.stored (Some (Js.Num 2))) in
  let persisted :=
    Obs.stored_videos (store (Obs.run (Storage.saveVideos Demo.roomy Demo.captured) w)) in
  (Obs.configured_max (store w) = Js.Num 2 ∧ 0 < 2) ∧
  Z.of_nat (length persisted) <= 2 ∧
  StronglySorted newest_first persisted.
Proof.
  intros w persisted.
  destruct (C3_persisted_sorted_and_bounded Demo.roomy
              (Demo.video "e" "Epsilon" 9 1) [Demo.video "a" "Alpha again" 10 3] w)
    as (_ & Hsorted & _ & Hbound & _).
  split_and!; [reflexivity | lia | | exact Hsorted].
  apply (Hbound 2); [reflexivity|lia].
Defined.

(** ** The capture history *)

Section HistoryFacts.
Context {A : Type}.
Implicit Types l es : list A.

Lemma last50_length l : length (Obs.last50 l) = (length l `min` 50)%nat.
Proof. unfold Obs.last50. rewrite length_drop. lia. Qed.

Lemma last50_suffix l : Obs.last50 l `suffix_of` l.
Proof. apply suffix_drop. Qed.

Lemma last50_app l es :
  Obs.last50 (Obs.last50 l ++ es) = Obs.last50 (l ++ es).
Proof.
  unfold Obs.last50. rewrite !length_app, length_drop.
  destruct (decide (length l <= 50)%nat) as [Hle|Hgt].
  - replace (length l - 50)%nat with 0%nat by lia. simpl.
    by rewrite Nat.sub_0_r.
  - replace (length l - (length l - 50) + length es - 50)%nat
      with (length es) by lia.
    replace (length l + length es - 50)%nat
      with ((length l - 50) + length es)%nat by lia.
    rewrite <- drop_drop. f_equal.
    rewrite drop_app_le; [done|lia].
Qed.

Lemma last50_last l e : last (Obs.last50 (l ++ [e])) = Some e.
Proof.
  unfold Obs.last50. rewrite length_app. simpl.
  destruct (decide (length l + 1 - 50 <= length l)%nat).
  - rewrite drop_app_le by lia. apply last_snoc.
  - lia.
Qed.
End HistoryFacts.

Section SuccessiveMerges.
Context (host : Host).

Lemma for_each_cons_run {A} (x : A) (xs : list A) (body : A → Eff.M unit) w :
  Eff.for_each (x :: xs) body w
  = match body x w with
    | (Ok _, w1) => Eff.for_each xs body w1
    | (Throw e, w1) => (Throw e, w1)
    end.
Proof. reflexivity. Qed.

Lemma saveVideos_ok r rs w :
  Storage.saveVideos host (r :: rs) w
  = (Ok tt, Obs.run (Storage.saveVideos host (r :: rs)) w).
Proof. unfold Obs.run. by rewrite saveVideos_run. Qed.

(** The history after a run of merges, one per batch. *)
Lemma merges_history (b : list Video) (bs : list (list Video)) (w : World) :
  Forall (λ b, b ≠ []) (b :: bs) →
  Obs.value (Eff.for_each (b :: bs) (Storage.saveVideos host)) w = Ok tt ∧
  Obs.history (store (Obs.run (Eff.for_each (b :: bs) (Storage.saveVideos host)) w))
  = Obs.last50 (Obs.history (store w) ++ imap (Obs.entry_of host (clock w)) (b :: bs)).
Proof.
  revert b w. induction bs as [|b' bs IH]; intros b w Hne;
    apply Forall_cons in Hne as [Hb Hne]; destruct b as [|r rs]; try done;
    unfold Obs.value, Obs.run; rewrite for_each_cons_run, saveVideos_ok.
  - simpl. split; [done|]. apply saveVideos_history.
  - specialize (IH b' (Obs.run (Storage.saveVideos host (r :: rs)) w) Hne)
      as [IHv IHh].
    split; [exact IHv|].
    unfold Obs.run in IHh at 1. rewrite IHh.
    rewrite saveVideos_history, saveVideos_clock, last50_app, <- (assoc_L (++)).
    f_equal. f_equal.
    change (imap (Obs.entry_of host (clock w)) ((r :: rs) :: b' :: bs))
      with (Obs.entry_of host (clock w) 0 (r :: rs)
              :: imap (Obs.entry_of host (clock w) ∘ S) (b' :: bs)).
    simpl. f_equal. f_equal; [|apply imap_ext; intros i x _; simpl];
      unfold Obs.entry_of; f_equal; f_equal; lia.
Qed.
End SuccessiveMerges.

(** C9. Every merge of [n >= 1] records succeeds and appends the history
    entry [(now, n)], where [now] is the clock reading taken for the entry
    and [n] is the length of the input, not of what survives; the history
    is then cut to its last 50 entries, dropping the oldest. After 51
    successive single-record merges the history holds exactly 50 entries:
    the last 50 of the old entries followed by the 51 new ones. *)
Theorem C9_history_records_input_count_capped_at_50 (host : Host) :
  (∀ r rs w,
     let newVideos := r :: rs in
     let entry := {| timestamp := Date_now host (S (clock w));
                     videoCount := Z.of_nat (length newVideos) |} in
     let history' :=
       Obs.history (store (Obs.run (Storage.saveVideos host newVideos) w)) in
     Obs.value (Storage.saveVideos host newVideos) w = Ok tt ∧
     history' = Obs.last50 (Obs.history (store w) ++ [entry]) ∧
     last history' = Some entry ∧
     history' `suffix_of` Obs.history (store w) ++ [entry] ∧
     length history' = (S (length (Obs.history (store w))) `min` 50)%nat) ∧
  (∀ (singles : list Video) w,
     length singles = 51%nat →
     let batches := (λ v, [v]) <$> singles in
     let history' :=
       Obs.history (store (Obs.run (Eff.for_each batches (Storage.saveVideos host)) w)) in
     Obs.value (Eff.for_each batches (Storage.saveVideos host)) w = Ok tt ∧
     length history' = 50%nat ∧
     history' = Obs.last50 (Obs.history (store w)
                            ++ imap (Obs.entry_of host (clock w)) batches) ∧
     (Obs.history (store w) = [] →
      history' = drop 1 (imap (Obs.entry_of host (clock w)) batches))).
Proof.
  split.
  - intros r rs w newVideos entry history'.
    assert (history' = Obs.last50 (Obs.history (store w) ++ [entry])) as Hh.
    { unfold history', newVideos. rewrite saveVideos_history.
      unfold Obs.entry_of, entry. by rewrite Nat.add_0_r, Nat.add_1_r. }
    split_and!.
    + apply saveVideos_value.
    + done.
    + rewrite Hh. apply last50_last.
    + rewrite Hh. apply last50_suffix.
    + rewrite Hh, last50_length, length_app. simpl. lia.
  - intros singles w Hlen batches history'. subst history' batches.
    destruct singles as [|v vs]; [done|]. rewrite fmap_cons.
    assert (Forall (λ b : list Video, b ≠ [])
              ([v] :: fmap (M:=list) (λ v : Video, [v]) vs)) as Hne.
    { rewrite <- (fmap_cons (λ v : Video, [v])). by apply Forall_fmap, Forall_true. }
    destruct (merges_history host [v] (fmap (M:=list) (λ v : Video, [v]) vs) w Hne)
      as [Hv Hh].
    assert (length ([v] :: fmap (M:=list) (λ v : Video, [v]) vs) = 51%nat) as Hb
      by (simpl in *; by rewrite length_fmap).
    rewrite Hh. split_and!.
    + done.
    + rewrite last50_length, length_app, length_imap. lia.
    + done.
    + intros ->. unfold Obs.last50. rewrite app_nil_l. by rewrite length_imap, Hb.
Qed.

(** C9 on 51 single-record merges into an empty store. *)
Lemma C9_witness_51_merges :
  let singles := replicate 51 (Demo.video "a" "Alpha" 5 10) in
  let w := Demo.world empty_store in
  length singles = 51%nat ∧
  length (Obs.history (store (Obs.run
            (Eff.for_each ((λ v, [v]) <$> singles) (Storage.saveVideos Demo.roomy)) w)))
  = 50%nat.
Proof.
  intros singles w. split; [reflexivity|].
  apply (C9_history_records_input_count_capped_at_50 Demo.roomy). reflexivity.
Defined.

(** ** Settings and the count ceiling *)

Lemma ceiling_of_positive (s : Store) (n : Z) :
  Obs.configured_max s = Js.Num n → n ≠ 0 → Obs.ceiling s = n.
Proof.
  intros Hn Hne. unfold Obs.ceiling. rewrite Hn. simpl.
  by destruct (Z.eqb_spec n 0).
Qed.

Lemma configured_max_stored (s : Store) (m : Js.number) :
  Obs.stored_max s = Some m → Obs.configured_max s = m.
Proof.
  unfold Obs.stored_max, Obs.configured_max.
  destruct (settings s) as [blob|]; simpl; [|done]. by intros ->.
Qed.

Lemma configured_max_missing (s : Store) :
  Obs.stored_max s = None → Obs.configured_max s = Js.Num 500.
Proof.
  unfold Obs.stored_max, Obs.configured_max.
  destruct (settings s) as [blob|]; simpl; [|done]. by intros ->.
Qed.

(** C10. If the stored settings blob is absent, or its [maxStoredVideos]
    field is missing, zero or not a number, a merge enforces the ceiling
    500: [getSettings] fills the fields that are missing from the defaults
    (all of them when the blob is absent), the merge replaces a falsy
    [maxStoredVideos] by 500, the persisted collection is the first 500
    records of the sorted, de-duplicated union, and the merge leaves the
    same collection, last-capture timestamp and history as it does from the
    same store with [maxStoredVideos] set to 500. *)
Theorem C10_falsy_limit_behaves_as_500 (host : Host) (r : Video)
    (rs : list Video) (w : World) :
  let newVideos := r :: rs in
  let s := store w in
  settings s = None ∨ Obs.stored_max s = None ∨
  Obs.stored_max s = Some (Js.Num 0) ∨ Obs.stored_max s = Some Js.NaN →
  (settings s = None →
   Obs.value Storage.getSettings w = Ok Constants.DEFAULT_SETTINGS) ∧
  (Obs.stored_max s = None →
   ∃ read, Obs.value Storage.getSettings w = Ok read ∧
           maxStoredVideos read = Js.Num 500) ∧
  Obs.ceiling s = 500 ∧
  videos (store (Obs.run (Storage.saveVideos host newVideos) w))
    = Some (take 500 (Obs.merged s newVideos)) ∧
  (∀ w500,
     store w500 = Obs.set_max s (Js.Num 500) → clock w500 = clock w →
     let after := store (Obs.run (Storage.saveVideos host newVideos) w) in
     let after500 := store (Obs.run (Storage.saveVideos host newVideos) w500) in
     videos after = videos after500 ∧
     lastCaptureTimestamp after = lastCaptureTimestamp after500 ∧
     captureHistory after = captureHistory after500).
Proof.
  intros newVideos s Hfalsy.
  assert (Obs.ceiling s = 500) as Hc.
  { unfold Obs.ceiling.
    destruct Hfalsy as [Hnone|[Hnone|[H0|Hnan]]].
    - unfold Obs.configured_max. by rewrite Hnone.
    - by rewrite configured_max_missing.
    - by rewrite (configured_max_stored _ _ H0).
    - by rewrite (configured_max_stored _ _ Hnan). }
  assert (videos (store (Obs.run (Storage.saveVideos host newVideos) w))
          = Some (take 500 (Obs.merged s newVideos))) as Hv.
  { unfold newVideos. rewrite saveVideos_videos. fold s.
    rewrite count_truncated_take by lia. by rewrite Hc. }
  split_and!.
  - intros Hnone. unfold Obs.value. rewrite getSettings_run. simpl.
    fold s. by rewrite Hnone.
  - intros Hnone. unfold Obs.value. rewrite getSettings_run. simpl.
    eexists. split; [done|].
    fold s. fold (Obs.configured_max s). by rewrite configured_max_missing.
  - done.
  - done.
  - intros w500 Hs Hclock after after500.
    unfold after, after500, Obs.run, newVideos. rewrite !saveVideos_run. simpl.
    rewrite Hs, Hclock. fold s.
    assert (Obs.count_truncated (Obs.set_max s (Js.Num 500)) (r :: rs)
            = Obs.count_truncated s (r :: rs)) as ->.
    { unfold Obs.count_truncated. by rewrite Hc. }
    done.
Qed.

(** C10 with [maxStoredVideos] configured as 0. *)
Lemma C10_witness_zero_setting :
  let w := Demo.world (Demo.store_with Demo.stored (Some (Js.Num 0))) in
  Obs.stored_max (store w) = Some (Js.Num 0) ∧
  Obs.ceiling (store w) = 500 ∧
  videos (store (Obs.run (Storage.saveVideos Demo.roomy Demo.captured) w))
    = Some (take 500 (Obs.merged (store w) Demo.captured)).
Proof.
  intros w.
  assert (Obs.stored_max (store w) = Some (Js.Num 0)) as H0 by reflexivity.
  split; [exact H0|].
  split;
    apply (C10_falsy_limit_behaves_as_500 Demo.roomy
             (Demo.video "e" "Epsilon" 9 1) [Demo.video "a" "Alpha again" 10 3] w);
    right; right; left; exact H0.
Defined.

(** ** background/api-handler.js *)

Section ApiFacts.
Context (host : Host).
Implicit Types (w : World) (apiKey : string).

Lemma try_catch_run {A} (m : Eff.M A) (handler : string → Eff.M A) w :
  Eff.try_catch m handler w
  = match m w with
    | (Ok a, w') => (Ok a, w')
    | (Throw e, w') => handler e w'
    end.
Proof. reflexivity. Qed.

(** The channel lookup never throws. *)
Lemma fetchChannelDetails_total channelIds apiKey w :
  ∃ channelDetails w',
    Api.fetchChannelDetails host channelIds apiKey w = (Ok channelDetails, w').
Proof.
  unfold Api.fetchChannelDetails. case_decide; [by eexists _, _|].
  rewrite try_catch_run.
  match goal with
  | |- context [match ?run with _ => _ end] =>
      destruct run as [[details|e] w1]; by eexists _, _
  end.
Qed.

(** One turn of the loop body, in terms of its two requests. *)
Lemma fetch_chunk_run chunks apiKey chunk w :
  Api.fetch_chunk host chunks apiKey chunk w
  = match Api.fetchVideoBatch host chunk apiKey w with
    | (Throw e, w1) => (Throw e, w1)
    | (Ok parsed, w1) =>
        match Api.fetchChannelDetails host
                (Utils.deduplicateBy (channelId <$> parsed) (λ c, c)) apiKey w1 with
        | (Throw e, w2) => (Throw e, w2)
        | (Ok channelDetails, w2) =>
            (Ok (Api.merge_channel channelDetails <$> parsed),
             Chunks.pause (bool_decide (1 < length chunks)%nat) w2)
        end
    end.
Proof.
  unfold Api.fetch_chunk. rewrite bind_run.
  destruct (Api.fetchVideoBatch host chunk apiKey w) as [[parsed|e] w1]; [|done].
  rewrite bind_run.
  destruct (Api.fetchChannelDetails host _ apiKey w1) as [[details|e] w2]; [|done].
  rewrite bind_run. unfold Chunks.pause.
  case_decide.
  - by rewrite bool_decide_eq_true_2.
  - by rewrite bool_decide_eq_false_2.
Qed.

Lemma fetch_chunks_run chunks apiKey todo allVideos w :
  ∃ records w',
    Chunks.outcomes host apiKey (bool_decide (1 < length chunks)%nat)
      todo w records w' ∧
    Api.fetch_chunks host chunks apiKey todo allVideos w
    = (Ok (allVideos ++ concat records), w').
Proof.
  revert allVideos w. induction todo as [|chunk todo IH]; intros allVideos w.
  - exists [], w. split; [constructor|]. simpl. by rewrite app_nil_r.
  - simpl. rewrite bind_run, try_catch_run, bind_run, fetch_chunk_run.
    destruct (Api.fetchVideoBatch host chunk apiKey w) as [[parsed|e] w1] eqn:Hbatch.
    + destruct (fetchChannelDetails_total
                  (Utils.deduplicateBy (channelId <$> parsed) (λ c, c)) apiKey w1)
        as (details & w2 & Hchan).
      rewrite Hchan.
      destruct (IH (allVideos ++ (Api.merge_channel details <$> parsed))
                  (Chunks.pause (bool_decide (1 < length chunks)%nat) w2))
        as (records & w' & Hout & Hrun).
      exists ((Api.merge_channel details <$> parsed) :: records), w'. split.
      * econstructor; [|done]. by econstructor.
      * simpl. rewrite Hrun. by rewrite (assoc_L (++)).
    + destruct (IH allVideos w1) as (records & w' & Hout & Hrun).
      exists ([] :: records), w'. split.
      * econstructor; [|done]. by econstructor.
      * simpl. by rewrite Hrun.
Qed.
End ApiFacts.

Section ApiFrame.
Context (host : Host).
Implicit Types (w : World) (apiKey : string).




End ApiFrame.

(** C7. [fetchVideoDetails] fails fast. For the empty identifier list it
    returns the empty list, whatever the credential; for a non-empty list
    and the empty credential it throws the missing-credential error ("API
    key is required"). In both cases the world is left as it was: no
    request is added to the network trace and the store is untouched. *)
Theorem C7_fetchVideoDetails_fails_fast (host : Host) :
  (∀ apiKey w,
     Api.fetchVideoDetails host [] apiKey w = (Ok [], w)) ∧
  (∀ videoIds w,
     videoIds ≠ [] →
     Obs.value (Api.fetchVideoDetails host videoIds "") w
       = Throw "API key is required" ∧
     trace (Obs.run (Api.fetchVideoDetails host videoIds "") w) = trace w ∧
     store (Obs.run (Api.fetchVideoDetails host videoIds "") w) = store w).
Proof.
  split.
  - done.
  - intros videoIds w Hne. unfold Obs.value, Obs.run, Api.fetchVideoDetails.
    rewrite decide_False by by destruct videoIds.
    done.
Qed.

(** C7 on fifty-one identifiers and the empty credential. *)
Lemma C7_witness_no_credential :
  Demo.fifty_one_ids ≠ [] ∧
  Obs.value (Api.fetchVideoDetails (Demo.host Demo.kib_per_video Demo.first_fails)
               Demo.fifty_one_ids "") (Demo.world empty_store)
  = Throw "API key is required".
Proof.
  assert (Demo.fifty_one_ids ≠ []) as Hne by (vm_compute; discriminate).
  split; [exact Hne|].
  apply (C7_fetchVideoDetails_fails_fast
           (Demo.host Demo.kib_per_video Demo.first_fails)), Hne.
Defined.

(** C8. A run of [fetchVideoDetails] over the chunks of a non-empty
    identifier list with a credential never throws. Every chunk is
    processed in order, whatever happened to the chunks before it: a chunk
    whose detail request fails contributes nothing, a chunk whose detail
    request succeeds contributes its records, and the result is the
    concatenation of these contributions in chunk order. *)
Theorem C8_chunk_failure_is_isolated (host : Host) (videoIds : list string)
    (apiKey : string) (w : World) :
  videoIds ≠ [] → apiKey ≠ "" →
  let chunks := Utils.chunkArray videoIds Constants.BATCH_SIZE in
  concat chunks = videoIds ∧
  ∃ records w',
    Chunks.outcomes host apiKey (bool_decide (1 < length chunks)%nat)
      chunks w records w' ∧
    Api.fetchVideoDetails host videoIds apiKey w = (Ok (concat records), w').
Proof.
  intros Hids Hkey chunks. split.
  - apply chunkArray_concat. unfold Constants.BATCH_SIZE. lia.
  - unfold Api.fetchVideoDetails.
    rewrite decide_False by by destruct videoIds.
    destruct apiKey as [|c apiKey]; [done|]. simpl negb. cbv iota.
    destruct (fetch_chunks_run host chunks (String c apiKey) chunks [] w)
      as (records & w' & Hout & Hrun).
    exists records, w'. split; [done|]. exact Hrun.
Qed.

(** C8 on fifty-one identifiers, with a network whose first answer is an
    error. *)
Lemma C8_witness_first_chunk_fails :
  let host := Demo.host Demo.kib_per_video Demo.first_fails in
  let w := Demo.world empty_store in
  (Demo.fifty_one_ids ≠ [] ∧ "k" ≠ "") ∧
  ∃ records w',
    Chunks.outcomes host "k"
      (bool_decide (1 < length (Utils.chunkArray Demo.fifty_one_ids Constants.BATCH_SIZE))%nat)
      (Utils.chunkArray Demo.fifty_one_ids Constants.BATCH_SIZE) w records w' ∧
    Api.fetchVideoDetails host Demo.fifty_one_ids "k" w = (Ok (concat records), w').
Proof.
  intros host w.
  assert (Demo.fifty_one_ids ≠ []) as Hids by (vm_compute; discriminate).
  assert ("k" ≠ "") as Hkey by discriminate.
  split; [by split|].
  apply (C8_chunk_failure_is_isolated host Demo.fifty_one_ids "k" w Hids Hkey).
Defined.

(** The scenario of the specification, evaluated: of two chunks the first
    detail request fails with HTTP 500 and the second succeeds. Three
    requests are issued (two detail requests, one channel lookup); the
    result holds the record of the second chunk, with the region of its
    channel. *)
Example one_of_two_chunks_fails :
  let host := Demo.host Demo.kib_per_video Demo.first_fails in
  let run := Api.fetchVideoDetails host Demo.fifty_one_ids "k" (Demo.world empty_store) in
  length (Utils.chunkArray Demo.fifty_one_ids Constants.BATCH_SIZE) = 2%nat ∧
  (∃ records, run.1 = Ok records ∧ Obs.ids records = ["z"] ∧
              regionCode <$> records = ["JP"]) ∧
  Api.fetches (trace run.2) = 3%nat.
Proof.
  split_and!; [reflexivity | | reflexivity].
  eexists. split_and!; [vm_compute; reflexivity | reflexivity..].
Qed.

(** ** The query engine: filters *)

Section FilterFacts.
Context (host : Host).
Implicit Types (f : Filters) (v : Video) (st : Feed.State).

Lemma truthy_string_false (q : string) : Js.truthy_string q = false ↔ q = "".
Proof. by destruct q. Qed.

Lemma nonempty_length {A} (l : list A) : (0 < length l)%nat ↔ l ≠ [].
Proof. destruct l; simpl; split; (done || lia). Qed.

Lemma keep_spec f v :
  Feed.keep host f v = true ↔
  Spec.language_ok f v ∧ Spec.country_ok f v ∧ Spec.text_ok_as_stored host f v.
Proof.
  unfold Feed.keep, Spec.language_ok, Spec.country_ok, Spec.text_ok_as_stored.
  rewrite <- (truthy_string_false (searchQuery f)).
  repeat case_bool_decide;
    repeat match goal with
           | H : (0 < length _)%nat |- _ => apply nonempty_length in H
           | H : ¬ (0 < length _)%nat |- _ =>
               rewrite nonempty_length in H; apply dec_stable in H
           end;
    simpl;
    destruct (Js.truthy_string (searchQuery f)); simpl;
    destruct (Js.includes (toLowerCase host (title v)) (searchQuery f)); simpl;
    destruct (Js.includes (toLowerCase host (channelTitle v)) (searchQuery f));
    simpl; intuition congruence.
Qed.

Lemma feed_sortVideos_perm st :
  Feed.filteredVideos (Feed.sortVideos host st) ≡ₚ Feed.filteredVideos st.
Proof.
  unfold Feed.sortVideos. simpl. repeat case_decide; by rewrite ?sort_perm.
Qed.

Lemma feed_applyFilters_elem st v :
  v ∈ Feed.filteredVideos (Feed.applyFilters host st) ↔
  v ∈ Feed.allVideos st ∧ Feed.keep host (Feed.currentFilters st) v = true.
Proof.
  unfold Feed.applyFilters. rewrite feed_sortVideos_perm. simpl.
  rewrite list_elem_of_filter, Is_true_true. tauto.
Qed.

Lemma storage_sortVideos_perm videos key :
  Storage.sortVideos host videos key ≡ₚ videos.
Proof. unfold Storage.sortVideos. repeat case_decide; apply sort_perm. Qed.

Lemma storage_applyFilters_elem videos f v :
  v ∈ Storage.applyFilters host videos f ↔
  v ∈ videos ∧ Spec.language_ok f v ∧ Spec.country_ok f v.
Proof.
  unfold Storage.applyFilters, Spec.language_ok, Spec.country_ok.
  assert (∀ l : list Video,
            v ∈ match sortBy f with
                | Some key => if Js.truthy_string key
                              then Storage.sortVideos host l (Some key) else l
                | None => l
                end ↔ v ∈ l) as Hsort.
  { intros l. destruct (sortBy f) as [key|]; [|done].
    destruct (Js.truthy_string key); [|done]. by rewrite storage_sortVideos_perm. }
  rewrite Hsort.
  repeat case_decide;
    repeat match goal with
           | H : (0 < length _)%nat |- _ => apply nonempty_length in H
           | H : ¬ (0 < length _)%nat |- _ =>
               rewrite nonempty_length in H; apply dec_stable in H
           end;
    rewrite ?list_elem_of_filter; intuition congruence.
Qed.
End FilterFacts.

(** C5, as stated, fails on both filters of the repository. The storage
    manager's [applyFilters] has no text filter: it keeps a record whose
    title and channel do not contain the query. The feed page's filter
    compares the stored query as it is: with the query "ABC" it drops a
    record titled "abc", although the lowercased query is a substring of
    the lowercased title. *)
Lemma C5_counterexample_text_filter :
  let host := Demo.roomy in
  let v := Demo.video "a" "abc" 1 1 in
  let searching q := {| selectedLanguages := []; selectedCountries := [];
                        sortBy := Some "date"; searchQuery := q |} in
  (v ∈ Storage.applyFilters host [v] (searching "zzz") ∧
   ¬ Spec.passes host (searching "zzz") v) ∧
  (Spec.passes host (searching "ABC") v ∧
   v ∉ Feed.filteredVideos
         (Feed.applyFilters host
            {| Feed.allVideos := [v]; Feed.filteredVideos := [];
               Feed.currentFilters := searching "ABC" |})).
Proof.
  intros host v searching. split; split.
  - apply storage_applyFilters_elem. split_and!; [apply list_elem_of_here|by left..].
  - intros (_ & _ & [Hq|[Hq|Hq]]); vm_compute in Hq; discriminate.
  - split_and!; [by left..|]. right; left. reflexivity.
  - rewrite feed_applyFilters_elem. intros [_ Hkeep].
    vm_compute in Hkeep. discriminate.
Qed.

(** C5, amended. On the feed page a record appears in the filtered list if
    and only if it is in the collection and passes the language filter, the
    country filter and the text filter, where the text filter compares the
    stored search query as it is with the lowercased title and the
    lowercased channel name; the query is trimmed and lowercased once, by
    [handleSearchChange], when it is typed. Hence for every filter object
    whose search query is in lowercase form the result is exactly the set
    of records passing the three filters of the specification. The storage
    manager's [applyFilters] applies the language and the country filter
    only, whatever the search query. *)
Theorem C5_query_filters_are_conjunctive (host : Host) :
  (∀ st v,
     let f := Feed.currentFilters st in
     v ∈ Feed.filteredVideos (Feed.applyFilters host st) ↔
     v ∈ Feed.allVideos st ∧
     Spec.language_ok f v ∧ Spec.country_ok f v ∧ Spec.text_ok_as_stored host f v) ∧
  (∀ value st,
     searchQuery (Feed.currentFilters (Feed.handleSearchChange host value st))
     = toLowerCase host (trim host value)) ∧
  (∀ st v,
     let f := Feed.currentFilters st in
     toLowerCase host (searchQuery f) = searchQuery f →
     v ∈ Feed.filteredVideos (Feed.applyFilters host st) ↔
     v ∈ Feed.allVideos st ∧ Spec.passes host f v) ∧
  (∀ videos f v,
     v ∈ Storage.applyFilters host videos f ↔
     v ∈ videos ∧ Spec.language_ok f v ∧ Spec.country_ok f v).
Proof.
  split_and!.
  - intros st v f. unfold f. by rewrite feed_applyFilters_elem, keep_spec.
  - intros value st. unfold Feed.handleSearchChange, Feed.applyFilters, Feed.sortVideos.
    reflexivity.
  - intros st v f Hlower. unfold f in *.
    rewrite feed_applyFilters_elem, keep_spec.
    unfold Spec.passes, Spec.text_ok, Spec.text_ok_as_stored. by rewrite Hlower.
  - intros videos f v. apply storage_applyFilters_elem.
Qed.

(** C5 on the feed page with the lowercase query "abc". *)
Lemma C5_witness_lowercase_query :
  let host := Demo.roomy in
  let v := Demo.video "a" "Learning ABC" 1 1 in
  let st := {| Feed.allVideos := [v]; Feed.filteredVideos := [];
               Feed.currentFilters :=
                 {| selectedLanguages := ["en"]; selectedCountries := [];
                    sortBy := Some "date"; searchQuery := "abc" |} |} in
  toLowerCase host (searchQuery (Feed.currentFilters st))
    = searchQuery (Feed.currentFilters st) ∧
  (v ∈ Feed.filteredVideos (Feed.applyFilters host st) ↔
   v ∈ Feed.allVideos st ∧ Spec.passes host (Feed.currentFilters st) v).
Proof.
  intros host v st. split; [reflexivity|].
  apply (C5_query_filters_are_conjunctive host). reflexivity.
Defined.

(** ** The query engine: sort *)

(** Comparison by code units is a consistent comparator. *)
Lemma compare_units_consistent : Js.Consistent Demo.compare_units.
Proof.
  assert (∀ a b, String.compare a b = Gt ↔ String.compare b a = Lt) as Hflip.
  { intros a b. rewrite (String.compare_antisym a b).
    destruct (String.compare b a); simpl; split; congruence. }
  split; unfold Demo.compare_units.
  - intros a b. specialize (Hflip b a).
    destruct (String.compare a b) eqn:Eab, (String.compare b a) eqn:Eba;
      split; try lia; intros _;
      destruct Hflip as [H1 H2]; (by discriminate H1 || by discriminate H2).
  - intros a b c Hab Hbc.
    destruct (String.compare a b) eqn:Eab; [| |lia].
    + apply String.compare_eq_iff in Eab as ->. done.
    + destruct (String.compare b c) eqn:Ebc; [| |lia].
      * apply String.compare_eq_iff in Ebc as <-. by rewrite Eab.
      * apply String_as_OT.cmp_lt in Eab, Ebc.
        pose proof (String_as_OT.lt_trans _ _ _ Eab Ebc) as Hac.
        apply String_as_OT.cmp_lt in Hac. unfold String_as_OT.cmp in Hac.
        by rewrite Hac.
Qed.

Section SortKeyFacts.
Context (host : Host).

Lemma feed_sortVideos_recognized (st : Feed.State) :
  sortBy (Feed.currentFilters st) ∈ [Some "date"; Some "views"; Some "title"] →
  Feed.filteredVideos (Feed.sortVideos host st)
  = Storage.sortVideos host (Feed.filteredVideos st) (sortBy (Feed.currentFilters st)).
Proof.
  intros Hkey. unfold Feed.sortVideos, Storage.sortVideos. simpl.
  repeat case_decide; try done.
  apply elem_of_cons in Hkey as [?|Hkey]; [done|].
  apply elem_of_cons in Hkey as [?|Hkey]; [done|].
  apply list_elem_of_singleton in Hkey. done.
Qed.


End SortKeyFacts.




(** Two records with the same view count keep their order under 'views',
    and two records with the same title keep theirs under 'title'. *)
Example equal_keys_keep_their_order :
  let host := Demo.roomy in
  let videos := [Demo.video "a" "Beta" 1 20; Demo.video "b" "Alpha" 2 20;
                 Demo.video "c" "Beta" 3 5] in
  Obs.ids (Storage.sortVideos host videos (Some "views")) = ["a"; "b"; "c"] ∧
  Obs.ids (Storage.sortVideos host videos (Some "title")) = ["b"; "a"; "c"] ∧
  Obs.ids (Storage.sortVideos host videos (Some "date")) = ["c"; "b"; "a"].
Proof. split_and!; reflexivity. Qed.

(** ** Quota estimate and reset *)

(** Two quota units per chunk of fifty identifiers. *)
Example estimateQuotaUsage_examples :
  Api.estimateQuotaUsage 50 = 2 ∧ Api.estimateQuotaUsage 51 = 4 ∧
  Api.estimateQuotaUsage 100 = 4.
Proof. split_and!; reflexivity. Qed.

(** [clearVideos] empties the collection and the history and resets the
    last-capture timestamp in a single write, and leaves the settings. *)
Lemma clearVideos_resets (w : World) :
  let w' := Obs.run Storage.clearVideos w in
  Obs.stored_videos (store w') = [] ∧
  Obs.history (store w') = [] ∧
  lastCaptureTimestamp (store w') = Some 0 ∧
  settings (store w') = settings (store w) ∧
  length (trace w') = S (length (trace w)).
Proof.
  unfold Obs.run, Storage.clearVideos, Storage.storage_set. simpl.
  unfold Obs.stored_videos, Obs.history, Storage.write_items. simpl.
  destruct (store w) as [[?|] [?|] ? [?|] [?|]]; simpl;
    (split_and!; [done..|]); rewrite length_app; simpl; lia.
Qed.

(** * Further properties of the code *)

(** ** shared/utils.js: chunks *)

Section ChunkShape.
Context {A : Type}.
Implicit Types (l : list A) (size fuel i k : nat).

(** The [k]-th turn of the loop pushes the slice that starts at
    [i + k * size], as long as that index is inside the array. *)
Lemma chunk_loop_lookup l size fuel i k :
  (0 < size)%nat → (length l - i <= fuel)%nat →
  Utils.chunk_loop l size fuel i !! k
  = if decide (i + k * size < length l)%nat
    then Some (take size (drop (i + k * size) l))
    else None.
Proof.
  intros Hsize. revert i k.
  induction fuel as [|fuel IH]; intros i k Hfuel; simpl.
  - rewrite decide_False by lia. done.
  - destruct (decide (i < length l)%nat) as [Hi|Hi].
    + destruct k as [|k]; simpl.
      * rewrite decide_True by lia.
        rewrite slice_nonneg by lia.
        by replace (i + 0)%nat with i by lia; replace (i + size - i)%nat with size by lia.
      * rewrite IH by lia.
        replace (i + size + k * size)%nat with (i + S k * size)%nat by lia.
        done.
    + rewrite decide_False by lia. done.
Qed.

Lemma chunkArray_lookup l size k :
  (0 < size)%nat →
  Utils.chunkArray l size !! k
  = if decide (k * size < length l)%nat
    then Some (take size (drop (k * size) l))
    else None.
Proof.
  intros Hsize. unfold Utils.chunkArray.
  rewrite chunk_loop_lookup by lia. done.
Qed.

Lemma chunkArray_length l size :
  (0 < size)%nat →
  length (Utils.chunkArray l size) = ((length l + size - 1) `div` size)%nat.
Proof.
  intros Hsize.
  set (n := length (Utils.chunkArray l size)).
  assert (¬ (n * size < length l)%nat) as Hupper.
  { intros Hlt.
    pose proof (chunkArray_lookup l size n Hsize) as Hlook.
    rewrite decide_True in Hlook by done.
    apply lookup_lt_Some in Hlook. unfold n in Hlook. lia. }
  assert (n = 0%nat ∨ ((n - 1) * size < length l)%nat) as Hlower.
  { destruct n as [|m] eqn:Hn; [by left|right].
    destruct (lookup_lt_is_Some_2 (Utils.chunkArray l size) m) as [c Hc];
      [fold n; lia|].
    rewrite chunkArray_lookup in Hc by done.
    case_decide; [|done]. by replace (S m - 1)%nat with m by lia. }
  apply Nat.div_unique with (r := (length l + size - 1 - n * size)%nat).
  - destruct Hlower as [->|Hlower]; nia.
  - nia.
Qed.
End ChunkShape.

(** X1. For a chunk size of at least one, [chunkArray] cuts the array into
    consecutive pieces: chunk number [k] holds the elements from index
    [k * size] up to, and not including, [(k + 1) * size]; there are
    [ceil(length / size)] chunks; every chunk is non-empty and has at most
    [size] elements; and the empty array gives no chunk. *)
Theorem X1_chunkArray_consecutive_pieces {A} (array : list A) (size : nat) :
  (0 < size)%nat →
  length (Utils.chunkArray array size)
    = ((length array + size - 1) `div` size)%nat ∧
  (∀ k chunk, Utils.chunkArray array size !! k = Some chunk →
              chunk = take size (drop (k * size) array) ∧
              (0 < length chunk <= size)%nat) ∧
  (∀ k, (S k < length (Utils.chunkArray array size))%nat →
        length <$> Utils.chunkArray array size !! k = Some size) ∧
  (array = [] → Utils.chunkArray array size = []).
Proof.
  intros Hsize. split_and!.
  - by apply chunkArray_length.
  - intros k chunk Hk. rewrite chunkArray_lookup in Hk by done.
    case_decide as Hlt; [|done]. injection Hk as <-. split; [done|].
    rewrite length_take, length_drop. lia.
  - intros k Hk.
    destruct (lookup_lt_is_Some_2 (Utils.chunkArray array size) (S k)) as [c Hc];
      [done|].
    rewrite chunkArray_lookup in Hc by done.
    case_decide as Hlt; [|done].
    rewrite chunkArray_lookup by done.
    rewrite decide_True by lia. simpl. f_equal.
    rewrite length_take, length_drop. lia.
  - intros ->. done.
Qed.

(** X1 on five elements in chunks of two. *)
Lemma X1_witness_five_by_two :
  (0 < 2)%nat ∧
  Utils.chunkArray [1; 2; 3; 4; 5] 2 = [[1; 2]; [3; 4]; [5]] ∧
  length (Utils.chunkArray [1; 2; 3; 4; 5] 2) = ((5 + 2 - 1) `div` 2)%nat.
Proof.
  split; [lia|]. split; [reflexivity|].
  apply (X1_chunkArray_consecutive_pieces [1; 2; 3; 4; 5] 2). lia.
Defined.

(** ** shared/utils.js: duplicates *)

Section DedupMore.
Context {A : Type} `{Countable K} (key : A → K).
Implicit Types (l : list A) (seen : gset K).

(** Items whose keys have all been seen are all dropped. *)
Lemma dedup_filter_seen seen l :
  (∀ x, x ∈ l → key x ∈ seen) → Utils.dedup_filter key seen l = [].
Proof.
  induction l as [|x l IH]; intros Hseen; simpl; [done|].
  rewrite decide_True by (apply Hseen; left).
  apply IH. intros y Hy. apply Hseen. by right.
Qed.

(** Appending items with known keys to a duplicate-free list changes
    nothing. *)
Lemma dedup_filter_app_known seen l l' :
  NoDup (key <$> l) → (∀ x, x ∈ l → key x ∉ seen) →
  (∀ y, y ∈ l' → key y ∈ seen ∨ key y ∈ key <$> l) →
  Utils.dedup_filter key seen (l ++ l') = l.
Proof.
  revert seen. induction l as [|x l IH]; intros seen Hnodup Hfresh Hknown; simpl.
  - apply dedup_filter_seen. intros y Hy.
    destruct (Hknown y Hy) as [?|Hin]; [done|]. by apply elem_of_nil in Hin.
  - apply NoDup_cons in Hnodup as [Hx Hnodup].
    rewrite decide_False by (apply Hfresh; left). f_equal.
    apply IH; [done|..].
    + intros y Hy. rewrite elem_of_union, elem_of_singleton.
      intros [Heq|Hin].
      * apply Hx. rewrite <- Heq. by apply list_elem_of_fmap_2.
      * by apply (Hfresh y); [right|].
    + intros y Hy. rewrite elem_of_union, elem_of_singleton.
      destruct (Hknown y Hy) as [?|Hin]; [by left; right|].
      simpl in Hin. apply elem_of_cons in Hin as [->|?]; [by left; left|by right].
Qed.

Lemma deduplicateBy_app_known l l' :
  NoDup (key <$> l) → (∀ y, y ∈ l' → key y ∈ key <$> l) →
  Utils.deduplicateBy (l ++ l') key = l.
Proof.
  intros Hnodup Hknown. apply dedup_filter_app_known; [done|..].
  - intros x _. apply not_elem_of_empty.
  - intros y Hy. right. by apply Hknown.
Qed.

Lemma deduplicateBy_keys l k :
  k ∈ key <$> Utils.deduplicateBy l key ↔ k ∈ key <$> l.
Proof.
  split.
  - intros (x & -> & Hx)%list_elem_of_fmap.
    apply list_elem_of_fmap_2.
    eapply elem_of_sublist; [apply Hx|]. apply dedup_filter_sublist.
  - intros (x & -> & Hx)%list_elem_of_fmap.
    pose proof (deduplicateBy_by_key key l (key x)) as Hby.
    destruct (filter (λ y, key y = key x) l) as [|y ys] eqn:Hfilter.
    + assert (x ∈ filter (λ y, key y = key x) l) as Hin
        by by apply list_elem_of_filter.
      rewrite Hfilter in Hin. by apply elem_of_nil in Hin.
    + simpl in Hby.
      assert (y ∈ filter (λ y, key y = key x) (Utils.deduplicateBy l key)) as Hy
        by (rewrite Hby; left).
      apply list_elem_of_filter in Hy as [<- Hy].
      by apply list_elem_of_fmap_2.
Qed.
End DedupMore.

(** X2. [deduplicateBy] is idempotent, removes nothing but duplicates
    (the keys that occur in the result are exactly the keys that occur in
    the input), never lengthens the array, and is the identity exactly on
    the arrays whose keys are pairwise distinct. *)
Theorem X2_deduplicateBy_idempotent {A} `{Countable K} (key : A → K)
    (array : list A) :
  Utils.deduplicateBy (Utils.deduplicateBy array key) key
    = Utils.deduplicateBy array key ∧
  (∀ k, k ∈ key <$> Utils.deduplicateBy array key ↔ k ∈ key <$> array) ∧
  (length (Utils.deduplicateBy array key) <= length array)%nat ∧
  (Utils.deduplicateBy array key = array ↔ NoDup (key <$> array)).
Proof.
  split_and!.
  - apply deduplicateBy_distinct, dedup_filter_NoDup.
  - apply deduplicateBy_keys.
  - apply sublist_length, dedup_filter_sublist.
  - split.
    + intros <-. apply dedup_filter_NoDup.
    + apply deduplicateBy_distinct.
Qed.

(** ** shared/utils.js: language codes *)

Section StringFacts.
Implicit Types (s p q rest : string) (c : ascii).

Lemma append_cons c s rest : String c s +:+ rest = String c (s +:+ rest).
Proof. reflexivity. Qed.

Lemma append_assoc p q rest : (p +:+ q) +:+ rest = p +:+ (q +:+ rest).
Proof. induction p as [|c p IH]; [done|]. rewrite !append_cons. by f_equal. Qed.

Lemma prefix_cons c p s :
  String.prefix (String c p) (String c s) = String.prefix p s.
Proof. simpl. by destruct (ascii_dec c c). Qed.

Lemma prefix_app p rest : String.prefix p (p +:+ rest) = true.
Proof.
  induction p as [|c p IH]; simpl; [by destruct rest|].
  by destruct (ascii_dec c c).
Qed.

Lemma prefix_split p s : String.prefix p s = true → ∃ rest, s = p +:+ rest.
Proof.
  revert s. induction p as [|a p IH]; intros s.
  - by exists s.
  - destruct s as [|b s]; simpl; [done|].
    destruct (ascii_dec a b) as [->|]; [|done].
    intros (rest & ->)%IH. by exists rest.
Qed.

Lemma includes_here p rest : Js.includes (p +:+ rest) p = true.
Proof.
  destruct p as [|c p]; [by destruct rest|].
  change (String c p +:+ rest) with (String c (p +:+ rest)).
  unfold Js.includes; fold Js.includes.
  by rewrite prefix_cons, prefix_app.
Qed.

Lemma includes_later c s q : Js.includes s q = true → Js.includes (String c s) q = true.
Proof.
  intros Hs. unfold Js.includes; fold Js.includes. rewrite Hs.
  apply orb_true_r.
Qed.

Lemma before_first_split sep s :
  ∃ rest, s = JsString.before_first sep s +:+ rest ∧
          (rest = "" ∨ ∃ rest', rest = String sep rest').
Proof.
  induction s as [|c s (rest & IH & Hrest)]; simpl.
  - exists "". by split; [|left].
  - destruct (Ascii.eqb_spec c sep) as [->|Hc].
    + exists (String sep s). split; [done|]. right. by exists s.
    + exists rest. split; [|done]. rewrite append_cons. by f_equal.
Qed.

Lemma before_first_without sep s :
  Js.includes (JsString.before_first sep s) (String sep "") = false.
Proof.
  induction s as [|c s IH]; simpl; [done|].
  destruct (Ascii.eqb_spec c sep) as [->|Hc]; [done|].
  unfold Js.includes; fold Js.includes. rewrite IH.
  simpl. destruct (ascii_dec sep c) as [->|_]; [done|].
  done.
Qed.
End StringFacts.

(** X3. [normalizeLanguageCode] never returns a code with a hyphen. The
    empty code and 'unknown' give 'unknown'; any other code gives the
    part of its lowercase form that precedes the first hyphen (all of it
    when there is none), which is empty when the code starts with a
    hyphen. *)
Theorem X3_normalizeLanguageCode_drops_region (host : Host) (code : string) :
  Js.includes (UtilsText.normalizeLanguageCode host code) "-" = false ∧
  (code = "" ∨ code = "unknown" →
   UtilsText.normalizeLanguageCode host code = "unknown") ∧
  (code ≠ "" → code ≠ "unknown" →
   ∃ rest,
     toLowerCase host code = UtilsText.normalizeLanguageCode host code +:+ rest ∧
     (rest = "" ∨ ∃ rest', rest = String "-" rest')).
Proof.
  unfold UtilsText.normalizeLanguageCode. split_and!.
  - destruct (negb (Js.truthy_string code) || bool_decide (code = "unknown"));
      [done|]. apply before_first_without.
  - intros [-> | ->]; done.
  - intros Hempty Hunknown.
    destruct code as [|c code]; [done|]. simpl negb.
    rewrite bool_decide_eq_false_2 by done. simpl.
    apply before_first_split.
Qed.

(** X3 on the codes "en-US" and "-US", lowercased on the ASCII range. *)
Lemma X3_witness_en_US :
  ("en-US" ≠ "" ∧ "en-US" ≠ "unknown") ∧
  UtilsText.normalizeLanguageCode Demo.roomy "en-US" = "en" ∧
  UtilsText.normalizeLanguageCode Demo.roomy "-US" = "" ∧
  ∃ rest,
    toLowerCase Demo.roomy "en-US"
      = UtilsText.normalizeLanguageCode Demo.roomy "en-US" +:+ rest ∧
    (rest = "" ∨ ∃ rest', rest = String "-" rest').
Proof.
  assert ("en-US" ≠ "") as H1 by discriminate.
  assert ("en-US" ≠ "unknown") as H2 by discriminate.
  split; [by split|]. split; [reflexivity|]. split; [reflexivity|].
  apply (X3_normalizeLanguageCode_drops_region Demo.roomy "en-US"); done.
Defined.

(** ** background/api-handler.js: language detection *)

Section Detection.
Implicit Types (title : list N) (u : N) (cls : N → bool).

Lemma test_true cls title :
  ApiText.test cls title = true ↔ ∃ u, u ∈ title ∧ cls u = true.
Proof.
  unfold ApiText.test. rewrite existsb_exists.
  by setoid_rewrite list_elem_of_In.
Qed.

Lemma test_false cls title :
  ApiText.test cls title = false ↔ ∀ u, u ∈ title → cls u = false.
Proof.
  rewrite <- not_true_iff_false, test_true. split.
  - intros Hno u Hu. destruct (cls u) eqn:Hcls; [|done].
    destruct Hno. by exists u.
  - intros Hall (u & Hu & Hcls). by rewrite (Hall u Hu) in Hcls.
Qed.

(** The ideographs outside the class used for Japanese. *)
Lemma chinese_only u :
  ApiText.japanese u = false →
  ApiText.chinese u = true ↔ (0x9fb0 <= u <= 0x9fff)%N.
Proof.
  unfold ApiText.japanese, ApiText.chinese, ApiText.between.
  intros Hja. apply orb_false_iff in Hja as [_ Hja].
  rewrite andb_true_iff, !N.leb_le.
  apply andb_false_iff in Hja as [Hja|Hja]; apply N.leb_gt in Hja; lia.
Qed.
End Detection.

(** X4. [detectLanguageFromTitle] tests the classes in a fixed order, and
    the class it uses for Japanese contains the ideographs U+4E00 to
    U+9FAF. So a title with one such ideograph is reported as 'ja'; 'zh'
    is reported exactly when the title has a code unit in U+9FB0..U+9FFF
    and none of the Japanese, Korean, Cyrillic and Arabic classes; and
    nothing is reported exactly when no code unit of the title is in any
    of the five classes (the empty title included). *)
Theorem X4_detectLanguageFromTitle_order (title : list N) :
  ((∃ u, u ∈ title ∧ (0x4e00 <= u <= 0x9faf)%N) →
   ApiText.detectLanguageFromTitle title = Some "ja") ∧
  (ApiText.detectLanguageFromTitle title = Some "zh" ↔
   (∃ u, u ∈ title ∧ (0x9fb0 <= u <= 0x9fff)%N) ∧
   ∀ u, u ∈ title →
        ApiText.japanese u = false ∧ ApiText.korean u = false ∧
        ApiText.cyrillic u = false ∧ ApiText.arabic u = false) ∧
  (ApiText.detectLanguageFromTitle title = None ↔
   ∀ u, u ∈ title →
        ApiText.japanese u = false ∧ ApiText.korean u = false ∧
        ApiText.cyrillic u = false ∧ ApiText.arabic u = false ∧
        ApiText.chinese u = false).
Proof.
  unfold ApiText.detectLanguageFromTitle. split_and!.
  - intros (u & Hu & Hrange).
    rewrite bool_decide_eq_false_2 by (intros ->; by apply elem_of_nil in Hu).
    assert (ApiText.test ApiText.japanese title = true) as ->; [|done].
    apply test_true. exists u. split; [done|].
    unfold ApiText.japanese, ApiText.between.
    rewrite !orb_true_iff, !andb_true_iff, !N.leb_le. lia.
  - case_bool_decide as Hnil.
    { subst title. split; [done|].
      intros [(u & Hu & _) _]. by apply elem_of_nil in Hu. }
    destruct (ApiText.test ApiText.japanese title) eqn:Hja.
    { split; [done|]. intros [_ Hall]. apply test_true in Hja as (u & Hu & Hcls).
      destruct (Hall u Hu) as (Hno & _). congruence. }
    destruct (ApiText.test ApiText.korean title) eqn:Hko.
    { split; [done|]. intros [_ Hall]. apply test_true in Hko as (u & Hu & Hcls).
      destruct (Hall u Hu) as (_ & Hno & _). congruence. }
    destruct (ApiText.test ApiText.cyrillic title) eqn:Hru.
    { split; [done|]. intros [_ Hall]. apply test_true in Hru as (u & Hu & Hcls).
      destruct (Hall u Hu) as (_ & _ & Hno & _). congruence. }
    destruct (ApiText.test ApiText.arabic title) eqn:Har.
    { split; [done|]. intros [_ Hall]. apply test_true in Har as (u & Hu & Hcls).
      destruct (Hall u Hu) as (_ & _ & _ & Hno). congruence. }
    rewrite test_false in Hja, Hko, Hru, Har.
    destruct (ApiText.test ApiText.chinese title) eqn:Hzh.
    + split; [intros _|done]. split; [|by auto].
      apply test_true in Hzh as (u & Hu & Hcls).
      exists u. split; [done|]. by apply chinese_only; [apply Hja|].
    + split; [done|]. intros [(u & Hu & Hrange) _].
      rewrite test_false in Hzh.
      pose proof (Hzh u Hu) as Hno.
      apply (chinese_only u (Hja u Hu)) in Hrange. congruence.
  - case_bool_decide as Hnil.
    { subst title. split; [|done]. intros _ u Hu. by apply elem_of_nil in Hu. }
    destruct (ApiText.test ApiText.japanese title) eqn:Hja.
    { split; [done|]. intros Hall. apply test_true in Hja as (u & Hu & Hcls).
      destruct (Hall u Hu) as (Hno & _). congruence. }
    destruct (ApiText.test ApiText.korean title) eqn:Hko.
    { split; [done|]. intros Hall. apply test_true in Hko as (u & Hu & Hcls).
      destruct (Hall u Hu) as (_ & Hno & _). congruence. }
    destruct (ApiText.test ApiText.cyrillic title) eqn:Hru.
    { split; [done|]. intros Hall. apply test_true in Hru as (u & Hu & Hcls).
      destruct (Hall u Hu) as (_ & _ & Hno & _). congruence. }
    destruct (ApiText.test ApiText.arabic title) eqn:Har.
    { split; [done|]. intros Hall. apply test_true in Har as (u & Hu & Hcls).
      destruct (Hall u Hu) as (_ & _ & _ & Hno & _). congruence. }
    destruct (ApiText.test ApiText.chinese title) eqn:Hzh.
    { split; [done|]. intros Hall. apply test_true in Hzh as (u & Hu & Hcls).
      destruct (Hall u Hu) as (_ & _ & _ & _ & Hno). congruence. }
    rewrite test_false in Hja, Hko, Hru, Har, Hzh.
    split; [intros _ u Hu|done]. by auto 10.
Qed.

(** X4 on the title U+4E2D U+6587 (two common ideographs) and on a title
    with the rare ideograph U+9FB5 alone. *)
Lemma X4_witness_ideographs :
  (∃ u, u ∈ [0x4e2d; 0x6587]%N ∧ (0x4e00 <= u <= 0x9faf)%N) ∧
  ApiText.detectLanguageFromTitle [0x4e2d; 0x6587]%N = Some "ja" ∧
  ApiText.detectLanguageFromTitle [0x9fb5]%N = Some "zh".
Proof.
  assert (∃ u, u ∈ [0x4e2d; 0x6587]%N ∧ (0x4e00 <= u <= 0x9faf)%N) as Hu.
  { exists 0x4e2d%N. split; [left|lia]. }
  split; [exact Hu|]. split; [|reflexivity].
  by apply (X4_detectLanguageFromTitle_order [0x4e2d; 0x6587]%N).
Defined.

(** ** shared/utils.js: video identifiers *)

Section Identifiers.
Implicit Types (s v url rest p : string) (c : ascii) (n : nat).

Lemma strip_prefix_app p s rest :
  JsString.strip_prefix p s = Some rest ↔ s = p +:+ rest.
Proof.
  revert s. induction p as [|a p IH]; intros s; simpl.
  - split; [by intros [= ->]|by intros ->].
  - destruct s as [|b s]; [done|].
    rewrite append_cons.
    destruct (Ascii.eqb_spec a b) as [->|Hab].
    + rewrite IH. split; [by intros ->|by intros [= ->]].
    + split; [done|]. by intros [= ? _].
Qed.

Lemma take_id_app n s v :
  UtilsText.take_id n s = Some v →
  String.length v = n ∧ JsString.all_chars UtilsText.id_char v = true ∧
  ∃ rest, s = v +:+ rest.
Proof.
  revert s v. induction n as [|n IH]; intros s v; simpl.
  - intros [= <-]. split_and!; [done..|]. by exists s.
  - destruct s as [|c s]; [done|].
    destruct (UtilsText.id_char c) eqn:Hc; [|done].
    destruct (UtilsText.take_id n s) as [v'|] eqn:Hv'; [|done].
    intros [= <-]. destruct (IH s v' Hv') as (Hlen & Hall & rest & ->).
    split_and!; simpl.
    + by rewrite Hlen.
    + by rewrite Hc, Hall.
    + by exists rest.
Qed.

Lemma take_id_complete v rest :
  JsString.all_chars UtilsText.id_char v = true →
  UtilsText.take_id (String.length v) (v +:+ rest) = Some v.
Proof.
  induction v as [|c v IH]; simpl; [done|].
  intros [Hc Hall]%andb_true_iff. by rewrite Hc, IH.
Qed.

Lemma match_here_app s v :
  UtilsText.match_here s = Some v →
  UtilsText.is_video_id v = true ∧ ∃ rest, s = "watch?v=" +:+ v +:+ rest.
Proof.
  unfold UtilsText.match_here, UtilsText.is_video_id.
  destruct (JsString.strip_prefix "watch?v=" s) as [rest|] eqn:Hstrip; [|done].
  apply strip_prefix_app in Hstrip as ->.
  intros (Hlen & Hall & rest' & ->)%take_id_app.
  split; [|by exists rest'].
  by rewrite bool_decide_eq_true_2, Hall.
Qed.

Lemma extractVideoId_found url v :
  UtilsText.extractVideoId url = Some v →
  UtilsText.is_video_id v = true ∧ Js.includes url ("watch?v=" +:+ v) = true.
Proof.
  induction url as [|c url IH].
  - simpl. done.
  - unfold UtilsText.extractVideoId; fold UtilsText.extractVideoId.
    destruct (UtilsText.match_here (String c url)) as [v'|] eqn:Hhere.
    + intros [= ->]. apply match_here_app in Hhere as (Hid & rest & ->).
      split; [done|].
      rewrite <- append_assoc. apply includes_here.
    + intros Hlater. destruct (IH Hlater) as (Hid & Hin).
      split; [done|]. by apply includes_later.
Qed.

Lemma extractVideoId_here s v :
  UtilsText.match_here s = Some v → UtilsText.extractVideoId s = Some v.
Proof.
  intros Hhere. destruct s as [|a s]; [by vm_compute in Hhere|].
  unfold UtilsText.extractVideoId; fold UtilsText.extractVideoId.
  by rewrite Hhere.
Qed.

Lemma extractVideoId_skip c s :
  UtilsText.match_here (String c s) = None →
  UtilsText.extractVideoId (String c s) = UtilsText.extractVideoId s.
Proof.
  intros Hhere.
  unfold UtilsText.extractVideoId at 1; fold UtilsText.extractVideoId.
  by rewrite Hhere.
Qed.

Lemma match_here_complete v rest :
  UtilsText.is_video_id v = true →
  UtilsText.match_here ("watch?v=" +:+ v +:+ rest) = Some v.
Proof.
  unfold UtilsText.is_video_id, UtilsText.match_here.
  intros [Hlen%bool_decide_eq_true Hall]%andb_true_iff.
  assert (JsString.strip_prefix "watch?v=" ("watch?v=" +:+ v +:+ rest)
          = Some (v +:+ rest)) as -> by by apply strip_prefix_app.
  rewrite <- Hlen. by apply take_id_complete.
Qed.
End Identifiers.

(** X5. Whatever [extractVideoId] (and the content script's copy,
    [extractVideoIdFromUrl]) returns is a video identifier, eleven
    characters of [[a-zA-Z0-9_-]], that stands in the address right after
    "watch?v="; an address without "watch?v=" gives null. *)
Theorem X5_extractVideoId_returns_identifier (url : string) :
  (∀ v, UtilsText.extractVideoId url = Some v →
        String.length v = 11%nat ∧
        JsString.all_chars UtilsText.id_char v = true ∧
        Js.includes url ("watch?v=" +:+ v) = true) ∧
  (Js.includes url "watch?v=" = false → UtilsText.extractVideoId url = None).
Proof.
  split.
  - intros v (Hid & Hin)%extractVideoId_found.
    unfold UtilsText.is_video_id in Hid.
    apply andb_true_iff in Hid as [Hlen%bool_decide_eq_true Hall]. done.
  - intros Hnone.
    destruct (UtilsText.extractVideoId url) as [v|] eqn:Hv; [|done].
    apply extractVideoId_found in Hv as (_ & Hin).
    induction url as [|c url IH].
    + simpl in Hin. done.
    + unfold Js.includes in Hin, Hnone; fold Js.includes in Hin, Hnone.
      apply orb_false_iff in Hnone as [Hhere Hlater].
      apply orb_true_iff in Hin as [Hin|Hin]; [|by apply IH].
      exfalso. revert Hhere Hin. clear.
      destruct (JsString.strip_prefix "watch?v=" (String c url)) as [rest|] eqn:Hs.
      * apply strip_prefix_app in Hs as ->. by rewrite prefix_app.
      * intros _ Hin.
        apply prefix_split in Hin as [rest Hrest].
        rewrite append_assoc in Hrest.
        apply strip_prefix_app in Hrest. congruence.
Qed.

(** X5 on a watch address with a time parameter. *)
Lemma X5_witness_watch_address :
  UtilsText.extractVideoId "https://www.youtube.com/watch?v=dQw4w9WgXcQ&t=42s"
    = Some "dQw4w9WgXcQ" ∧
  String.length "dQw4w9WgXcQ" = 11%nat ∧
  JsString.all_chars UtilsText.id_char "dQw4w9WgXcQ" = true.
Proof.
  assert (UtilsText.extractVideoId
            "https://www.youtube.com/watch?v=dQw4w9WgXcQ&t=42s"
          = Some "dQw4w9WgXcQ") as Hv by reflexivity.
  split; [exact Hv|].
  destruct (X5_extractVideoId_returns_identifier
              "https://www.youtube.com/watch?v=dQw4w9WgXcQ&t=42s") as [Hsound _].
  destruct (Hsound _ Hv) as (Hlen & Hall & _). by split.
Defined.

(** X6. Round trip with the feed page: the address that [openVideo] builds
    for a video identifier, with anything appended to it, is read back by
    [extractVideoId] as that identifier. *)
Theorem X6_openVideo_address_round_trip (videoId rest : string) :
  UtilsText.is_video_id videoId = true →
  UtilsText.extractVideoId (FeedControls.openVideo videoId +:+ rest)
    = Some videoId.
Proof.
  intros Hid. unfold FeedControls.openVideo.
  change "https://www.youtube.com/watch?v="
    with ("https://www.youtube.com/" +:+ "watch?v=").
  rewrite !append_assoc.
  pose proof (extractVideoId_here _ _ (match_here_complete videoId rest Hid))
    as Htail.
  set (tail := "watch?v=" +:+ videoId +:+ rest) in *. clearbody tail.
  repeat (rewrite append_cons, extractVideoId_skip;
          [|unfold UtilsText.match_here; simpl; try reflexivity;
            by destruct tail as [|[[] [] [] [] [] [] [] []] ?]]).
  exact Htail.
Qed.

(** X6 on the identifier "dQw4w9WgXcQ". *)
Lemma X6_witness_round_trip :
  UtilsText.is_video_id "dQw4w9WgXcQ" = true ∧
  UtilsText.extractVideoId (FeedControls.openVideo "dQw4w9WgXcQ" +:+ "")
    = Some "dQw4w9WgXcQ".
Proof.
  assert (UtilsText.is_video_id "dQw4w9WgXcQ" = true) as Hid by reflexivity.
  split; [exact Hid|].
  exact (X6_openVideo_address_round_trip "dQw4w9WgXcQ" "" Hid).
Defined.

(** ** shared/utils.js: relative times *)

Section RelativeTime.
Implicit Types (a b d now timestamp : Z).

(** A floored quotient is positive exactly from the divisor on. *)
Lemma div_positive a b : 0 < b → (0 <? a / b) = (b <=? a).
Proof.
  intros Hb. destruct (Z.leb_spec b a) as [Hle|Hlt].
  - apply Z.ltb_lt. apply Z.lt_le_trans with (1 / 1); [done|].
    change (1 / 1) with 1. apply Z.div_le_lower_bound; lia.
  - apply Z.ltb_ge.
    assert (a / b < 1); [|lia]. apply Z.div_lt_upper_bound; lia.
Qed.

(** The loop variables of [formatRelativeTime] as quotients of the
    difference in milliseconds. *)
Lemma units_of_milliseconds d :
  d / 1000 / 60 = d / 60000 ∧
  d / 1000 / 60 / 60 = d / 3600000 ∧
  d / 1000 / 60 / 60 / 24 = d / 86400000 ∧
  d / 1000 / 60 / 60 / 24 / 30 = d / 2592000000 ∧
  d / 1000 / 60 / 60 / 24 / 365 = d / 31536000000.
Proof. rewrite !Z.div_div by lia. done. Qed.
End RelativeTime.

(** X7. [formatRelativeTime] on a numeric time stamp, with [d] the number
    of milliseconds elapsed since it. The text is 'Just now' below one
    minute (a time stamp in the future included) and for a time stamp
    that is no valid date; otherwise, the difference being below 2^53 in
    size, from one minute on it counts whole minutes,
    from one hour whole hours, from 24 hours whole days, from 30 days
    whole months of 30 days, and from 365 days whole years of 365 days.
    The count shown is at least 1, and the unit takes an 's' exactly when
    the count is more than 1. *)
Theorem X7_formatRelativeTime_thresholds (now timestamp : Z) :
  (UtilsText.MAX_TIME_VALUE < Z.abs timestamp →
   UtilsText.formatRelativeTime now timestamp = "Just now") ∧
  (Z.abs timestamp <= UtilsText.MAX_TIME_VALUE →
   Z.abs (now - timestamp) < 2 ^ 53 →
   (now - timestamp < 60000 →
    UtilsText.formatRelativeTime now timestamp = "Just now") ∧
   (60000 <= now - timestamp < 3600000 →
    UtilsText.formatRelativeTime now timestamp
    = UtilsText.ago ((now - timestamp) / 60000) "minute") ∧
   (3600000 <= now - timestamp < 86400000 →
    UtilsText.formatRelativeTime now timestamp
    = UtilsText.ago ((now - timestamp) / 3600000) "hour") ∧
   (86400000 <= now - timestamp < 2592000000 →
    UtilsText.formatRelativeTime now timestamp
    = UtilsText.ago ((now - timestamp) / 86400000) "day") ∧
   (2592000000 <= now - timestamp < 31536000000 →
    UtilsText.formatRelativeTime now timestamp
    = UtilsText.ago ((now - timestamp) / 2592000000) "month") ∧
   (31536000000 <= now - timestamp →
    UtilsText.formatRelativeTime now timestamp
    = UtilsText.ago ((now - timestamp) / 31536000000) "year")) ∧
  (∀ n unit,
     UtilsText.ago n unit
     = pretty n +:+ " " +:+ unit +:+ (if decide (1 < n) then "s" else "") +:+ " ago").
Proof.
  split_and!.
  - intros Hinvalid. unfold UtilsText.formatRelativeTime.
    by rewrite (proj2 (Z.ltb_lt _ _) Hinvalid).
  - intros Hvalid _. unfold UtilsText.formatRelativeTime.
    rewrite (proj2 (Z.ltb_ge _ _) Hvalid).
    set (d := now - timestamp). cbv zeta.
    destruct (units_of_milliseconds d) as (-> & -> & -> & -> & ->).
    rewrite !div_positive by lia.
    split_and!; intros Hd;
      repeat match goal with
             | |- context [?a <=? ?b] => destruct (Z.leb_spec a b); try lia
             end; done.
  - intros n unit. unfold UtilsText.ago.
    destruct (Z.ltb_spec 1 n); [by rewrite decide_True|by rewrite decide_False by lia].
Qed.

(** X7 on a time stamp 90 minutes old: "1 hour ago". *)
Lemma X7_witness_ninety_minutes :
  (Z.abs 1000000 <= UtilsText.MAX_TIME_VALUE ∧
   Z.abs (6400000 - 1000000) < 2 ^ 53 ∧
   3600000 <= 6400000 - 1000000 < 86400000) ∧
  UtilsText.formatRelativeTime 6400000 1000000
  = UtilsText.ago ((6400000 - 1000000) / 3600000) "hour" ∧
  UtilsText.ago ((6400000 - 1000000) / 3600000) "hour" = "1 hour ago".
Proof.
  assert (Z.abs 1000000 <= UtilsText.MAX_TIME_VALUE) as Hvalid
    by (unfold UtilsText.MAX_TIME_VALUE; lia).
  assert (Z.abs (6400000 - 1000000) < 2 ^ 53) as Hexact by (vm_compute; reflexivity).
  assert (3600000 <= 6400000 - 1000000 < 86400000) as Hrange by lia.
  split; [by split_and!|]. split; [|reflexivity].
  by apply (X7_formatRelativeTime_thresholds 6400000 1000000).
Defined.

(** ** background/storage-manager.js: the two thresholds *)

Section Thresholds.
Context (host : Host).
Implicit Types (w : World) (s : Store) (bytes : Z).

(** An integer is below the floor of a rational exactly when it is below
    the rational. *)
Lemma le_Qfloor (z : Z) (x : Q) : z <= Qfloor x ↔ (inject_Z z <= x)%Q.
Proof.
  split.
  - intros Hz. eapply Qle_trans; [|apply Qfloor_le].
    by rewrite <- Zle_Qle.
  - intros Hx. rewrite <- (Qfloor_Z z). by apply Qfloor_resp_le.
Qed.

(** The reported percentage is above 80 from 8,389,133 bytes on: below
    that, [toFixed(2)] gives at most "80.00". *)
Lemma evicts_bytes s :
  Obs.evicts host s = true ↔ 8389133 <= getBytesInUse host s.
Proof.
  rewrite evicts_iff. unfold Obs.percentage, Storage.toFixed2.
  set (bytes := getBytesInUse host s).
  set (x := (inject_Z bytes / inject_Z Constants.MAX_SIZE_BYTES * 100 * 100
             + (1 # 2))%Q).
  transitivity (8001 <= Qfloor x).
  { unfold Qlt. cbn [Qnum Qden]. lia. }
  rewrite le_Qfloor. unfold x, Qle, Constants.MAX_SIZE_BYTES. simpl.
  destruct bytes; simpl; lia.
Qed.

(** [isNearLimit] compares the percentage before rounding. *)
Lemma near_limit_bytes bytes :
  negb (Qle_bool (inject_Z bytes / inject_Z Constants.MAX_SIZE_BYTES * 100)
          (Constants.WARNING_THRESHOLD * 100)) = true
  ↔ 8388608 < bytes.
Proof.
  rewrite negb_true_iff, <- not_true_iff_false, Qle_bool_iff.
  unfold Qle, Constants.MAX_SIZE_BYTES. simpl.
  destruct bytes; simpl; lia.
Qed.
End Thresholds.

(** X8. The two storage thresholds, in bytes. [getStorageUsage] reports
    [isNearLimit] as soon as more than 8,388,608 bytes (80 percent of the
    10 MiB quota) are in use, because it compares the percentage before
    rounding; [checkAndEvictIfNeeded] compares the percentage rounded to
    two decimals and evicts from 8,389,133 bytes on. An eviction therefore
    implies [isNearLimit], and between the two thresholds the usage
    reports [isNearLimit] while nothing is evicted. *)
Theorem X8_warning_and_eviction_thresholds (host : Host)
    (videos : list Video) (w : World) :
  ∃ usage,
    Storage.getStorageUsage host w = (Ok usage, w) ∧
    Storage.bytesInUse usage = getBytesInUse host (store w) ∧
    (Storage.isNearLimit usage = true ↔ 8388608 < getBytesInUse host (store w)) ∧
    (trace (Obs.run (Storage.checkAndEvictIfNeeded host videos) w) ≠ trace w
     ↔ 8389133 <= getBytesInUse host (store w)) ∧
    (trace (Obs.run (Storage.checkAndEvictIfNeeded host videos) w) ≠ trace w →
     Storage.isNearLimit usage = true).
Proof.
  eexists. split; [reflexivity|]. cbn [Storage.bytesInUse Storage.isNearLimit].
  assert (trace (Obs.run (Storage.checkAndEvictIfNeeded host videos) w) ≠ trace w
          ↔ 8389133 <= getBytesInUse host (store w)) as Hevict.
  { rewrite <- evicts_bytes. unfold Obs.run.
    rewrite checkAndEvictIfNeeded_run.
    destruct (Obs.evicts host (store w)); simpl.
    - split; [done|]. intros _ Heq.
      apply (f_equal length) in Heq. rewrite length_app in Heq. simpl in Heq. lia.
    - split; [|done]. intros Hne. by destruct Hne. }
  split_and!; [done| |done|].
  - apply near_limit_bytes.
  - rewrite Hevict, near_limit_bytes. lia.
Qed.

(** X8 on the store that reports 9,000,000 bytes in use. *)
Lemma X8_witness_nearly_full :
  ∃ usage,
    Storage.getStorageUsage Demo.nearly_full (Demo.world empty_store)
      = (Ok usage, Demo.world empty_store) ∧
    Storage.isNearLimit usage = true.
Proof.
  destruct (X8_warning_and_eviction_thresholds Demo.nearly_full []
              (Demo.world empty_store))
    as (usage & Hrun & _ & Hnear & _).
  exists usage. split; [exact Hrun|]. apply Hnear. simpl. lia.
Defined.

(** X9. [checkAndEvictIfNeeded] by the number of bytes in use. Below
    8,389,133 bytes it returns its argument and does nothing. From there
    on it returns a prefix of its argument and writes it in a single
    [set] that names the collection only: settings, filters, last-capture
    time stamp and capture history stay as they are, and no time is
    read. *)
Theorem X9_checkAndEvictIfNeeded_writes_collection_only (host : Host)
    (vs : list Video) (w : World) :
  (getBytesInUse host (store w) < 8389133 →
   Storage.checkAndEvictIfNeeded host vs w = (Ok vs, w)) ∧
  (8389133 <= getBytesInUse host (store w) →
   ∃ kept w',
     Storage.checkAndEvictIfNeeded host vs w = (Ok kept, w') ∧
     kept `prefix_of` vs ∧
     trace w' = trace w ++ [EvStorageSet (Obs.only_videos kept)] ∧
     videos (store w') = Some kept ∧
     settings (store w') = settings (store w) ∧
     filters (store w') = filters (store w) ∧
     lastCaptureTimestamp (store w') = lastCaptureTimestamp (store w) ∧
     captureHistory (store w') = captureHistory (store w) ∧
     clock w' = clock w).
Proof.
  rewrite checkAndEvictIfNeeded_run. split.
  - intros Hbytes.
    destruct (Obs.evicts host (store w)) eqn:Hev; [|done].
    apply evicts_bytes in Hev. lia.
  - intros Hbytes. apply evicts_bytes in Hbytes. rewrite Hbytes.
    eexists _, _. split; [reflexivity|]. simpl.
    split_and!; try done; [apply slice_0_prefix|..].
    + by destruct (videos (store w)).
    + by destruct (settings (store w)).
    + by destruct (filters (store w)).
    + by destruct (lastCaptureTimestamp (store w)).
    + by destruct (captureHistory (store w)).
Qed.

(** X9 on four records and 9,000,000 bytes in use. *)
Lemma X9_witness_four_records :
  8389133 <= getBytesInUse Demo.nearly_full
               (store (Demo.world (Demo.store_with Demo.stored None))) ∧
  ∃ kept w',
    Storage.checkAndEvictIfNeeded Demo.nearly_full Demo.stored
      (Demo.world (Demo.store_with Demo.stored None)) = (Ok kept, w') ∧
    kept `prefix_of` Demo.stored.
Proof.
  assert (8389133 <= getBytesInUse Demo.nearly_full
                       (store (Demo.world (Demo.store_with Demo.stored None))))
    as Hbytes by (simpl; lia).
  split; [exact Hbytes|].
  destruct (X9_checkAndEvictIfNeeded_writes_collection_only Demo.nearly_full
              Demo.stored (Demo.world (Demo.store_with Demo.stored None)))
    as [_ Habove].
  destruct (Habove Hbytes) as (kept & w' & Hrun & Hprefix & _).
  by exists kept, w'.
Defined.

(** ** background/storage-manager.js: capturing known videos again *)

Section KnownVideos.
Context (host : Host).
Implicit Types (w : World) (s : Store) (batch : list Video).

Lemma saveVideos_settings batch w :
  settings (store (Obs.run (Storage.saveVideos host batch) w)) = settings (store w).
Proof.
  destruct batch as [|r rs]; [done|].
  unfold Obs.run. by rewrite saveVideos_run.
Qed.


Lemma saveVideos_ceiling batch w :
  Obs.ceiling (store (Obs.run (Storage.saveVideos host batch) w))
  = Obs.ceiling (store w).
Proof.
  unfold Obs.ceiling, Obs.configured_max. by rewrite saveVideos_settings.
Qed.

Lemma merged_by_date s batch :
  StronglySorted (Order.not_after Storage.by_date) (Obs.merged s batch).
Proof. apply (sort_sorted Storage.by_date). Qed.

(** A collection that is sorted, free of duplicates and within the
    ceiling is left as it is by a merge of records it already holds. *)
Lemma known_batch_changes_nothing s batch :
  StronglySorted (Order.not_after Storage.by_date) (Obs.stored_videos s) →
  NoDup (id <$> Obs.stored_videos s) →
  Z.of_nat (length (Obs.stored_videos s)) <= Obs.ceiling s →
  (∀ v, v ∈ batch → id v ∈ id <$> Obs.stored_videos s) →
  Obs.count_truncated s batch = Obs.stored_videos s.
Proof.
  intros Hsorted Hnodup Hlen Hknown.
  assert (Obs.merged s batch = Obs.stored_videos s) as Hmerged.
  { unfold Obs.merged, Obs.deduplicated.
    rewrite deduplicateBy_app_known by done.
    by apply (sort_sorted_id Storage.by_date). }
  unfold Obs.count_truncated. rewrite Hmerged.
  by rewrite decide_False by lia.
Qed.
End KnownVideos.

(** X10. Capturing videos that are already stored changes nothing in the
    collection. After a merge under a positive ceiling, a further merge
    of a batch whose identifiers are all stored leaves the stored
    collection exactly as it was, records and order: the stored record
    wins over the newly captured one, so its data are not refreshed. Only
    the last-capture time stamp and the history move. *)
Theorem X10_known_videos_leave_collection (host : Host)
    (first again : list Video) (w : World) :
  first ≠ [] → again ≠ [] → 0 < Obs.ceiling (store w) →
  (∀ v, v ∈ again →
        id v ∈ Obs.ids (Obs.stored_videos
                          (store (Obs.run (Storage.saveVideos host first) w)))) →
  videos (store (Obs.run (Storage.saveVideos host again)
                   (Obs.run (Storage.saveVideos host first) w)))
  = videos (store (Obs.run (Storage.saveVideos host first) w)) ∧
  length (Obs.history (store (Obs.run (Storage.saveVideos host again)
                                (Obs.run (Storage.saveVideos host first) w))))
  = (S (length (Obs.history (store (Obs.run (Storage.saveVideos host first) w))))
       `min` 50)%nat.
Proof.
  intros Hfirst Hagain Hceiling Hknown.
  destruct first as [|r rs]; [done|]. destruct again as [|r' rs']; [done|].
  set (w1 := Obs.run (Storage.saveVideos host (r :: rs)) w) in *.
  assert (videos (store w1) = Some (Obs.count_truncated (store w) (r :: rs)))
    as Hstored by apply saveVideos_videos.
  assert (Obs.stored_videos (store w1) = Obs.count_truncated (store w) (r :: rs))
    as Hkept by (unfold Obs.stored_videos; by rewrite Hstored).
  split.
  - rewrite saveVideos_videos, Hstored. f_equal. rewrite <- Hkept.
    apply known_batch_changes_nothing.
    + rewrite Hkept. eapply StronglySorted_prefix;
        [apply count_truncated_prefix|apply merged_by_date].
    + rewrite Hkept. eapply sublist_NoDup;
        [apply (merged_NoDup (store w) (r :: rs))|].
      apply fmap_sublist, prefix_sublist, count_truncated_prefix.
    + unfold w1 at 2. rewrite saveVideos_ceiling, Hkept.
      by apply count_truncated_length.
    + exact Hknown.
  - rewrite saveVideos_history, last50_length, length_app. simpl.
    f_equal. lia.
Qed.

(** X10 on the four stored records: the batch [captured] is merged, then
    record "a" is captured again with other data. *)
Lemma X10_witness_capture_again :
  let w := Demo.world (Demo.store_with Demo.stored None) in
  let again := [Demo.video "a" "Alpha, renamed" 99 1000] in
  (Demo.captured ≠ [] ∧ again ≠ [] ∧ 0 < Obs.ceiling (store w)) ∧
  videos (store (Obs.run (Storage.saveVideos Demo.roomy again)
                   (Obs.run (Storage.saveVideos Demo.roomy Demo.captured) w)))
  = videos (store (Obs.run (Storage.saveVideos Demo.roomy Demo.captured) w)).
Proof.
  intros w again.
  assert (Demo.captured ≠ []) as H1 by discriminate.
  assert (again ≠ []) as H2 by discriminate.
  assert (0 < Obs.ceiling (store w)) as H3 by (vm_compute; reflexivity).
  split; [by split_and!|].
  apply (X10_known_videos_leave_collection Demo.roomy Demo.captured again w H1 H2 H3).
  intros v Hv. apply list_elem_of_singleton in Hv as ->.
  vm_compute. do 1 right. left.
Defined.

(** ** background/storage-manager.js: the available codes *)

Global Instance string_compare_consistent : Js.Consistent JsString.compare.
Proof. exact compare_units_consistent. Qed.

Section AvailableCodes.
Implicit Types (code x : string) (set acc : list string) (v : Video)
  (vs : list Video).

Lemma known_spec code :
  StorageReads.known code = true ↔ code ≠ "" ∧ code ≠ "unknown".
Proof.
  unfold StorageReads.known.
  rewrite andb_true_iff, negb_true_iff, bool_decide_eq_false.
  destruct code; simpl; split; intros [? ?]; by split.
Qed.

Lemma set_add_elem x code set :
  x ∈ JsSet.add code set ↔ x = code ∨ x ∈ set.
Proof.
  unfold JsSet.add. case_decide as Hin.
  - split; [by right|]. by intros [->|?].
  - rewrite elem_of_app, list_elem_of_singleton. tauto.
Qed.

Lemma set_add_NoDup code set : NoDup set → NoDup (JsSet.add code set).
Proof.
  intros Hset. unfold JsSet.add. case_decide as Hin; [done|].
  apply NoDup_app. split_and!; [done| |apply NoDup_singleton].
  intros x Hx ->%list_elem_of_singleton. done.
Qed.

(** The codes that a set of fields contributes: the known ones. *)
Lemma fold_add_codes (fields : Video → list string)
    (step : list string → Video → list string) :
  (∀ acc v, NoDup acc → NoDup (step acc v)) →
  (∀ acc v x, x ∈ step acc v ↔
              x ∈ acc ∨ (StorageReads.known x = true ∧ x ∈ fields v)) →
  ∀ vs acc,
    NoDup acc →
    NoDup (foldl step acc vs) ∧
    ∀ x, x ∈ foldl step acc vs ↔
         x ∈ acc ∨ (StorageReads.known x = true ∧ ∃ v, v ∈ vs ∧ x ∈ fields v).
Proof.
  intros Hnodup Hstep vs. induction vs as [|v vs IH]; intros acc Hacc; simpl.
  - split; [done|]. intros x. split; [by left|].
    intros [?|(_ & v & Hv & _)]; [done|]. by apply elem_of_nil in Hv.
  - destruct (IH (step acc v) (Hnodup acc v Hacc)) as [Hnd Hin].
    split; [done|]. intros x. rewrite Hin, Hstep. split.
    + intros [[?|(Hk & Hx)]|(Hk & v' & Hv' & Hx)]; [by left|right..].
      * split; [done|]. exists v. split; [left|done].
      * split; [done|]. exists v'. split; [by right|done].
    + intros [?|(Hk & v' & [->|Hv']%elem_of_cons & Hx)];
        [by left; left|by left; right|].
      right. split; [done|]. by exists v'.
Qed.

Lemma add_languages_NoDup acc v :
  NoDup acc → NoDup (StorageReads.add_languages acc v).
Proof.
  intros Hacc. unfold StorageReads.add_languages.
  repeat case_match; auto using set_add_NoDup.
Qed.

Lemma add_languages_elem acc v x :
  x ∈ StorageReads.add_languages acc v ↔
  x ∈ acc ∨ (StorageReads.known x = true ∧
             x ∈ [defaultLanguage v; defaultAudioLanguage v]).
Proof.
  unfold StorageReads.add_languages.
  rewrite !elem_of_cons, elem_of_nil.
  destruct (StorageReads.known (defaultLanguage v)) eqn:H1,
           (StorageReads.known (defaultAudioLanguage v)) eqn:H2;
    rewrite ?set_add_elem; split; intros Hx;
    repeat match goal with
           | H : _ ∨ _ |- _ => destruct H
           | H : _ ∧ _ |- _ => destruct H
           end;
    subst; try congruence; try done; auto.
Qed.

Lemma add_country_NoDup acc v :
  NoDup acc → NoDup (StorageReads.add_country acc v).
Proof.
  intros Hacc. unfold StorageReads.add_country.
  case_match; auto using set_add_NoDup.
Qed.

Lemma add_country_elem acc v x :
  x ∈ StorageReads.add_country acc v ↔
  x ∈ acc ∨ (StorageReads.known x = true ∧ x ∈ [regionCode v]).
Proof.
  unfold StorageReads.add_country.
  rewrite list_elem_of_singleton.
  destruct (StorageReads.known (regionCode v)) eqn:H1;
    rewrite ?set_add_elem; split; intros Hx;
    repeat match goal with
           | H : _ ∨ _ |- _ => destruct H
           | H : _ ∧ _ |- _ => destruct H
           end;
    subst; try congruence; try done; auto.
Qed.

(** Sorting a duplicate-free list of strings by code units gives a
    strictly ascending list. *)
Lemma sort_strictly_ascending set :
  NoDup set →
  StronglySorted (λ a b, JsString.compare a b < 0) (Js.sort JsString.compare set).
Proof.
  intros Hset.
  assert (NoDup (Js.sort JsString.compare set)) as Hnd
    by by rewrite sort_perm.
  pose proof (sort_sorted JsString.compare set) as Hsorted.
  induction Hsorted as [|a l Hl IH Ha]; [constructor|].
  apply NoDup_cons in Hnd as [Hnotin Hnd].
  constructor; [by apply IH|].
  apply Forall_forall. intros b Hb.
  rewrite Forall_forall in Ha. specialize (Ha b Hb).
  unfold Order.not_after, JsString.compare in *.
  destruct (String.compare a b) eqn:Hab; [|lia|lia].
  apply String.compare_eq_iff in Hab as ->. done.
Qed.
End AvailableCodes.

Lemma getAvailableLanguages_known_codes (host : Host) (w : World) :
  ∃ languages,
    StorageReads.getAvailableLanguages host w = (Ok languages, w) ∧
    StronglySorted (λ a b, JsString.compare a b < 0) languages ∧
    ∀ code,
      code ∈ languages ↔
      code ≠ "" ∧ code ≠ "unknown" ∧
      ∃ v, v ∈ Obs.stored_videos (store w) ∧
           (defaultLanguage v = code ∨ defaultAudioLanguage v = code).
Proof.
  eexists. split; [reflexivity|].
  destruct (fold_add_codes (λ v, [defaultLanguage v; defaultAudioLanguage v])
              StorageReads.add_languages add_languages_NoDup add_languages_elem
              (Obs.stored_videos (store w)) [] (NoDup_nil_2)) as [Hnd Hin].
  split; [by apply sort_strictly_ascending|].
  intros code. rewrite sort_perm.
  unfold Obs.stored_videos in *. rewrite Hin, elem_of_nil, known_spec.
  setoid_rewrite elem_of_cons. setoid_rewrite list_elem_of_singleton.
  split.
  - intros [[]|((? & ?) & v & Hv & Hcode)]. split_and!; [done..|].
    exists v. split; [done|]. destruct Hcode; [by left|by right].
  - intros (? & ? & v & Hv & Hcode). right. split; [done|].
    exists v. split; [done|]. destruct Hcode; [by left|by right].
Qed.

(** X11. [getAvailableLanguages] only reads. Its result lists, strictly
    ascending by code units and hence without repetition, exactly the
    codes other than the empty one and 'unknown' that some stored video
    carries as its language or as its audio language. *)
Theorem X11_getAvailableLanguages_lists_known_codes (host : Host) (w : World) :
  ∃ languages,
    StorageReads.getAvailableLanguages host w = (Ok languages, w) ∧
    StronglySorted (λ a b, JsString.compare a b < 0) languages ∧
    ∀ code,
      code ∈ languages ↔
      code ≠ "" ∧ code ≠ "unknown" ∧
      ∃ v, v ∈ Obs.stored_videos (store w) ∧
           (defaultLanguage v = code ∨ defaultAudioLanguage v = code).
Proof. exact (getAvailableLanguages_known_codes host w). Qed.

Lemma getAvailableCountries_known_codes (host : Host) (w : World) :
  ∃ countries,
    StorageReads.getAvailableCountries host w = (Ok countries, w) ∧
    StronglySorted (λ a b, JsString.compare a b < 0) countries ∧
    ∀ code,
      code ∈ countries ↔
      code ≠ "" ∧ code ≠ "unknown" ∧
      ∃ v, v ∈ Obs.stored_videos (store w) ∧ regionCode v = code.
Proof.
  eexists. split; [reflexivity|].
  destruct (fold_add_codes (λ v, [regionCode v])
              StorageReads.add_country add_country_NoDup add_country_elem
              (Obs.stored_videos (store w)) [] (NoDup_nil_2)) as [Hnd Hin].
  split; [by apply sort_strictly_ascending|].
  intros code. rewrite sort_perm.
  unfold Obs.stored_videos in *. rewrite Hin, elem_of_nil, known_spec.
  setoid_rewrite list_elem_of_singleton.
  split.
  - intros [[]|((? & ?) & v & Hv & Hcode)]. split_and!; [done..|].
    by exists v.
  - intros (? & ? & v & Hv & Hcode). right. split; [done|].
    by exists v.
Qed.

(** X12. [getAvailableCountries] only reads. Its result lists, strictly
    ascending by code units and hence without repetition, exactly the
    region codes other than the empty one and 'unknown' that some stored
    video carries. *)
Theorem X12_getAvailableCountries_lists_known_codes (host : Host) (w : World) :
  ∃ countries,
    StorageReads.getAvailableCountries host w = (Ok countries, w) ∧
    StronglySorted (λ a b, JsString.compare a b < 0) countries ∧
    ∀ code,
      code ∈ countries ↔
      code ≠ "" ∧ code ≠ "unknown" ∧
      ∃ v, v ∈ Obs.stored_videos (store w) ∧ regionCode v = code.
Proof. exact (getAvailableCountries_known_codes host w). Qed.

(** The codes of a collection of three records, one of them with an
    unknown language and no region. *)
Example available_codes_evaluated :
  let w := Demo.world (Demo.store_with
             [Demo.video "a" "Alpha" 5 10;
              {| id := "b"; title := "Beta"; channelTitle := "channel";
                 channelId := "UCb"; defaultLanguage := "unknown";
                 defaultAudioLanguage := "ja"; regionCode := "";
                 capturedAt := 4; viewCount := 20 |};
              {| id := "c"; title := "Gamma"; channelTitle := "channel";
                 channelId := "UCc"; defaultLanguage := "de";
                 defaultAudioLanguage := "en"; regionCode := "DE";
                 capturedAt := 3; viewCount := 5 |}] None) in
  Obs.value (StorageReads.getAvailableLanguages Demo.roomy) w
    = Ok ["de"; "en"; "ja"] ∧
  Obs.value (StorageReads.getAvailableCountries Demo.roomy) w
    = Ok ["DE"; "US"].
Proof. split; reflexivity. Qed.

(** ** The offered codes and the filters *)

(** X13. Every code that [getAvailableLanguages] offers selects at least
    one video: [getVideos] with that single language selected, and no
    country, returns a non-empty list. The same holds for the codes of
    [getAvailableCountries] with no language selected. *)
Theorem X13_offered_codes_select_videos (host : Host) (w : World) :
  (∀ languages code f,
     Obs.value (StorageReads.getAvailableLanguages host) w = Ok languages →
     code ∈ languages →
     selectedLanguages f = [code] → selectedCountries f = [] →
     ∃ found, Storage.getVideos host (Some f) w = (Ok found, w) ∧ found ≠ []) ∧
  (∀ countries code f,
     Obs.value (StorageReads.getAvailableCountries host) w = Ok countries →
     code ∈ countries →
     selectedLanguages f = [] → selectedCountries f = [code] →
     ∃ found, Storage.getVideos host (Some f) w = (Ok found, w) ∧ found ≠ []).
Proof.
  split.
  - intros languages code f Hrun Hcode Hl Hc.
    destruct (getAvailableLanguages_known_codes host w)
      as (languages' & Hrun' & _ & Hin).
    unfold Obs.value in Hrun. rewrite Hrun' in Hrun. injection Hrun as <-.
    apply Hin in Hcode as (_ & _ & v & Hv & Hlang).
    eexists. split; [reflexivity|].
    assert (v ∈ Storage.applyFilters host (default [] (videos (store w))) f)
      as Hfound.
    { apply storage_applyFilters_elem. split; [done|].
      unfold Spec.language_ok, Spec.country_ok. rewrite Hl, Hc.
      split; [right|by left]. rewrite !list_elem_of_singleton.
      destruct Hlang; [by left|by right]. }
    intros Hnil. rewrite Hnil in Hfound. by apply elem_of_nil in Hfound.
  - intros countries code f Hrun Hcode Hl Hc.
    destruct (getAvailableCountries_known_codes host w)
      as (countries' & Hrun' & _ & Hin).
    unfold Obs.value in Hrun. rewrite Hrun' in Hrun. injection Hrun as <-.
    apply Hin in Hcode as (_ & _ & v & Hv & Hregion).
    eexists. split; [reflexivity|].
    assert (v ∈ Storage.applyFilters host (default [] (videos (store w))) f)
      as Hfound.
    { apply storage_applyFilters_elem. split; [done|].
      unfold Spec.language_ok, Spec.country_ok. rewrite Hl, Hc.
      split; [by left|right]. by rewrite list_elem_of_singleton. }
    intros Hnil. rewrite Hnil in Hfound. by apply elem_of_nil in Hfound.
Qed.

(** X13 on the four stored records, which are all in English and from the
    United States. *)
Lemma X13_witness_english :
  let w := Demo.world (Demo.store_with Demo.stored None) in
  let f := {| selectedLanguages := ["en"]; selectedCountries := [];
              sortBy := Some "views"; searchQuery := "" |} in
  Obs.value (StorageReads.getAvailableLanguages Demo.roomy) w = Ok ["en"] ∧
  ∃ found, Storage.getVideos Demo.roomy (Some f) w = (Ok found, w) ∧ found ≠ [].
Proof.
  intros w f.
  assert (Obs.value (StorageReads.getAvailableLanguages Demo.roomy) w = Ok ["en"])
    as Hrun by reflexivity.
  split; [exact Hrun|].
  destruct (X13_offered_codes_select_videos Demo.roomy w) as [Hlanguages _].
  apply (Hlanguages ["en"] "en" f Hrun); [left|reflexivity..].
Defined.

(** ** background/service-worker.js: reading, clearing, saving settings *)

Section WorkerReads.
Context (host : Host).
Implicit Types (w : World) (f : Filters).

Lemma applyFilters_nil f : Storage.applyFilters host [] f = [].
Proof.
  apply elem_of_nil_inv. intros v Hv.
  apply storage_applyFilters_elem in Hv as [Hv _]. by apply elem_of_nil in Hv.
Qed.

Lemma clearVideos_store w :
  store (Obs.run Storage.clearVideos w)
  = {| settings := settings (store w); videos := Some [];
       filters := filters (store w); lastCaptureTimestamp := Some 0;
       captureHistory := Some [] |}.
Proof.
  unfold Obs.run, Storage.clearVideos, Storage.storage_set, Storage.write_items.
  simpl. by destruct (store w) as [[?|] [?|] [?|] [?|] [?|]].
Qed.

Lemma handleSaveSettings_store (blob : StoredSettings) f w :
  store (Obs.run (Worker.handleSaveSettings (Some blob) (Some f)) w)
  = {| settings := Some blob; videos := videos (store w);
       filters := Some f;
       lastCaptureTimestamp := lastCaptureTimestamp (store w);
       captureHistory := captureHistory (store w) |}.
Proof.
  unfold Obs.run, Worker.handleSaveSettings, Storage.saveSettings,
    StorageReads.saveFilters, Storage.storage_set, Storage.write_items.
  simpl. by destruct (store w) as [[?|] [?|] [?|] [?|] [?|]].
Qed.
End WorkerReads.

(** X14. After CLEAR_VIDEOS every read comes back empty: the handler
    succeeds, and a GET_VIDEOS that follows, with any filters, returns no
    video, the last-capture time stamp 0, no available language and no
    available country; the capture history is empty. Settings and filters
    are kept. *)
Theorem X14_cleared_store_reads_empty (host : Host) (filters_sent : option Filters)
    (w : World) :
  Obs.value Worker.handleClearVideos w = Ok (Worker.Success tt) ∧
  (∃ data,
     Worker.handleGetVideos host filters_sent (Obs.run Worker.handleClearVideos w)
       = (Ok (Worker.Success data), Obs.run Worker.handleClearVideos w) ∧
     Worker.data_videos data = [] ∧
     Worker.data_lastCaptureTimestamp data = 0 ∧
     Worker.data_availableLanguages data = [] ∧
     Worker.data_availableCountries data = []) ∧
  Obs.value Storage.getCaptureHistory (Obs.run Worker.handleClearVideos w) = Ok [] ∧
  settings (store (Obs.run Worker.handleClearVideos w)) = settings (store w) ∧
  filters (store (Obs.run Worker.handleClearVideos w)) = filters (store w).
Proof.
  assert (Obs.run Worker.handleClearVideos w = Obs.run Storage.clearVideos w)
    as -> by reflexivity.
  pose proof (clearVideos_store w) as Hstore.
  set (w1 := Obs.run Storage.clearVideos w) in *. clearbody w1.
  split_and!.
  - reflexivity.
  - eexists. split; [reflexivity|].
    cbn [Worker.data_videos Worker.data_lastCaptureTimestamp
         Worker.data_availableLanguages Worker.data_availableCountries].
    rewrite Hstore. simpl.
    split_and!; try reflexivity.
    destruct filters_sent as [f|]; [apply applyFilters_nil|done].
  - unfold Obs.value. simpl. by rewrite Hstore.
  - by rewrite Hstore.
  - by rewrite Hstore.
Qed.

(** X15. What SAVE_SETTINGS stores is what GET_SETTINGS reads back. The
    settings blob replaces the stored one as a whole, so a field that the
    blob lacks reads as its default, whatever was stored before; a blob
    with every field reads back unchanged. The filter object reads back
    with the default sort key 'date' in place of a missing one. The
    videos, the last-capture time stamp and the history are not touched,
    and a message with neither settings nor filters writes nothing. *)
Theorem X15_saved_settings_read_back (host : Host) (blob : StoredSettings)
    (f : Filters) (w : World) :
  Obs.value (Worker.handleSaveSettings (Some blob) (Some f)) w
    = Ok (Worker.Success tt) ∧
  (∃ data,
     Worker.handleGetSettings host
       (Obs.run (Worker.handleSaveSettings (Some blob) (Some f)) w)
     = (Ok (Worker.Success data),
        Obs.run (Worker.handleSaveSettings (Some blob) (Some f)) w) ∧
     Worker.data_settings data
       = Storage.spread_settings Constants.DEFAULT_SETTINGS blob ∧
     (∀ page, blob = Options.as_stored page → Worker.data_settings data = page) ∧
     Worker.data_filters data
       = {| selectedLanguages := selectedLanguages f;
            selectedCountries := selectedCountries f;
            sortBy := Some (default "date" (sortBy f));
            searchQuery := searchQuery f |}) ∧
  videos (store (Obs.run (Worker.handleSaveSettings (Some blob) (Some f)) w))
    = videos (store w) ∧
  lastCaptureTimestamp
    (store (Obs.run (Worker.handleSaveSettings (Some blob) (Some f)) w))
    = lastCaptureTimestamp (store w) ∧
  captureHistory (store (Obs.run (Worker.handleSaveSettings (Some blob) (Some f)) w))
    = captureHistory (store w) ∧
  Worker.handleSaveSettings None None w = (Ok (Worker.Success tt), w).
Proof.
  pose proof (handleSaveSettings_store blob f w) as Hstore.
  set (w1 := Obs.run (Worker.handleSaveSettings (Some blob) (Some f)) w) in *.
  clearbody w1.
  split_and!; try reflexivity; try by rewrite Hstore.
  eexists. split; [reflexivity|].
  cbn [Worker.data_settings Worker.data_filters]. rewrite Hstore. simpl.
  split_and!.
  - reflexivity.
  - intros [] ->. reflexivity.
  - by destruct (sortBy f).
Qed.

(** X15 on a blob that carries a credential only. *)
Lemma X15_witness_key_only :
  let blob := {| stored_apiKey := Some "key"; stored_autoCapture := None;
                 stored_captureInterval := None; stored_maxStoredVideos := None;
                 stored_targetVideoCount := None |} in
  let f := {| selectedLanguages := ["en"]; selectedCountries := [];
              sortBy := None; searchQuery := "" |} in
  let w := Demo.world (Demo.store_with Demo.stored (Some (Js.Num 50))) in
  ∃ data,
    Worker.handleGetSettings Demo.roomy
      (Obs.run (Worker.handleSaveSettings (Some blob) (Some f)) w)
    = (Ok (Worker.Success data),
       Obs.run (Worker.handleSaveSettings (Some blob) (Some f)) w) ∧
    maxStoredVideos (Worker.data_settings data) = Js.Num 500 ∧
    sortBy (Worker.data_filters data) = Some "date".
Proof.
  intros blob f w.
  destruct (X15_saved_settings_read_back Demo.roomy blob f w)
    as (_ & (data & Hrun & Hsettings & _ & Hfilters) & _).
  exists data. split; [exact Hrun|].
  by rewrite Hsettings, Hfilters.
Defined.

(** ** background/service-worker.js: the capture pipeline *)

Section Capture.
Context (host : Host).
Implicit Types (w : World) (videoIds : list string).


End Capture.

(** X16. CAPTURE_VIDEOS is refused before anything happens when there is
    nothing to capture or no credential: an empty identifier list is
    answered with 'No video IDs provided'; identifiers without a
    configured credential are answered with 'API key not configured' and a
    CAPTURE_ERROR broadcast. In both cases no request is sent and nothing
    is written: the world is unchanged. *)
Theorem X16_capture_refused_without_ids_or_key (host : Host) (w : World) :
  Worker.handleCaptureVideos host [] w
    = (Ok (Worker.Failure "No video IDs provided", []), w) ∧
  (∀ videoIds,
     videoIds ≠ [] → Worker.configured_key (store w) = "" →
     Worker.handleCaptureVideos host videoIds w
     = (Ok (Worker.Failure "API key not configured",
            [Worker.CAPTURE_ERROR "API key not configured. Please go to Settings."]),
        w)) ∧
  (settings (store w) = None → Worker.configured_key (store w) = "").
Proof.
  split_and!.
  - reflexivity.
  - intros videoIds Hids Hkey. unfold Worker.handleCaptureVideos.
    rewrite decide_False by by destruct videoIds.
    rewrite bind_run, getSettings_run.
    fold (Worker.configured_key (store w)). by rewrite Hkey.
  - intros Hnone. unfold Worker.configured_key. by rewrite Hnone.
Qed.

(** X16 on a store without settings. *)
Lemma X16_witness_no_settings :
  (Demo.fifty_one_ids ≠ [] ∧
   Worker.configured_key (store (Demo.world empty_store)) = "") ∧
  Worker.handleCaptureVideos Demo.roomy Demo.fifty_one_ids (Demo.world empty_store)
  = (Ok (Worker.Failure "API key not configured",
         [Worker.CAPTURE_ERROR "API key not configured. Please go to Settings."]),
     Demo.world empty_store).
Proof.
  assert (Demo.fifty_one_ids ≠ []) as Hids by (vm_compute; discriminate).
  assert (Worker.configured_key (store (Demo.world empty_store)) = "")
    as Hkey by reflexivity.
  split; [by split|].
  by apply (X16_capture_refused_without_ids_or_key Demo.roomy (Demo.world empty_store)).
Defined.



(** ** pages/feed/feed.js and the storage manager: one filter, two copies *)

Lemma filter_all {A} (P : A → Prop) `{∀ x, Decision (P x)} (l : list A) :
  (∀ x, P x) → filter P l = l.
Proof.
  intros Hall. induction l as [|x l IH]; [done|].
  rewrite filter_cons_True by done. by f_equal.
Qed.

Section TwoFilters.
Context (host : Host).
Implicit Types (f : Filters) (v : Video) (st : Feed.State).

(** Without a search query the page's callback is the conjunction of the
    storage manager's two filters. *)
Lemma keep_without_query f v :
  searchQuery f = "" →
  Feed.keep host f v = true ↔
  ((0 < length (selectedLanguages f))%nat →
   defaultLanguage v ∈ selectedLanguages f ∨
   defaultAudioLanguage v ∈ selectedLanguages f) ∧
  ((0 < length (selectedCountries f))%nat → regionCode v ∈ selectedCountries f).
Proof.
  intros Hq. unfold Feed.keep. rewrite Hq. simpl.
  repeat case_bool_decide; simpl; split; try done; try tauto; intros [H1 H2];
    try (by destruct H1; [lia|..]); try (by exfalso; auto).
Qed.

Lemma filters_in_sequence f (l : list Video) :
  searchQuery f = "" →
  filter (λ video, Feed.keep host f video) l
  = (let filtered :=
       if decide (0 < length (selectedLanguages f))%nat
       then filter (λ video,
                defaultLanguage video ∈ selectedLanguages f ∨
                defaultAudioLanguage video ∈ selectedLanguages f) l
       else l in
     if decide (0 < length (selectedCountries f))%nat
     then filter (λ video, regionCode video ∈ selectedCountries f) filtered
     else filtered).
Proof.
  intros Hq. cbv zeta.
  repeat case_decide; rewrite ?list_filter_filter.
  - apply list_filter_iff. intros v. rewrite Is_true_true, keep_without_query by done.
    tauto.
  - apply list_filter_iff. intros v. rewrite Is_true_true, keep_without_query by done.
    tauto.
  - apply list_filter_iff. intros v. rewrite Is_true_true, keep_without_query by done.
    tauto.
  - apply filter_all. intros v. rewrite Is_true_true, keep_without_query by done.
    tauto.
Qed.
End TwoFilters.

(** X18. The feed page and the storage manager each carry a copy of the
    filter. Without a search query and with one of the sort keys 'date',
    'views' and 'title' the two copies agree: the list that the page's
    [applyFilters] shows is the list that the storage manager's
    [applyFilters] (hence [getVideos] with these filters) returns for the
    same collection, element by element and in the same order. *)
Theorem X18_feed_and_storage_filters_agree (host : Host) (st : Feed.State) :
  searchQuery (Feed.currentFilters st) = "" →
  sortBy (Feed.currentFilters st) ∈ [Some "date"; Some "views"; Some "title"] →
  Feed.filteredVideos (Feed.applyFilters host st)
  = Storage.applyFilters host (Feed.allVideos st) (Feed.currentFilters st).
Proof.
  intros Hq Hkey. unfold Feed.applyFilters.
  rewrite feed_sortVideos_recognized by done. cbn [Feed.filteredVideos Feed.currentFilters].
  rewrite filters_in_sequence by done. unfold Storage.applyFilters. cbv zeta.
  destruct (sortBy (Feed.currentFilters st)) as [key|] eqn:Hsort.
  - assert (Js.truthy_string key = true) as ->; [|done].
    apply elem_of_cons in Hkey as [[= ->]|Hkey]; [done|].
    apply elem_of_cons in Hkey as [[= ->]|Hkey]; [done|].
    apply list_elem_of_singleton in Hkey as [= ->]. done.
  - exfalso. apply elem_of_cons in Hkey as [?|Hkey]; [done|].
    apply elem_of_cons in Hkey as [?|Hkey]; [done|].
    by apply list_elem_of_singleton in Hkey.
Qed.

(** X18 on the four stored records, English selected, sorted by views. *)
Lemma X18_witness_by_views :
  let st := {| Feed.allVideos := Demo.stored; Feed.filteredVideos := [];
               Feed.currentFilters :=
                 {| selectedLanguages := ["en"]; selectedCountries := [];
                    sortBy := Some "views"; searchQuery := "" |} |} in
  Feed.filteredVideos (Feed.applyFilters Demo.roomy st)
  = Storage.applyFilters Demo.roomy Demo.stored (Feed.currentFilters st) ∧
  Obs.ids (Feed.filteredVideos (Feed.applyFilters Demo.roomy st))
  = ["b"; "a"; "d"; "c"].
Proof.
  intros st. split; [|reflexivity].
  apply (X18_feed_and_storage_filters_agree Demo.roomy st); [reflexivity|].
  right. left.
Defined.

(** X19. 'Clear filters' shows everything: [clearFilters] resets the
    filters to no language, no country, sort by date and no query, and
    the list shown is then the whole collection, newest first. The same
    holds whenever [applyFilters] runs with these filters, as when the
    page has just loaded. *)
Theorem X19_clearFilters_shows_everything (host : Host) (st : Feed.State) :
  Feed.filteredVideos (FeedControls.clearFilters host st)
    = Js.sort Storage.by_date (Feed.allVideos st) ∧
  Feed.currentFilters (FeedControls.clearFilters host st)
    = Feed.currentFilters Feed.initial ∧
  Feed.allVideos (FeedControls.clearFilters host st) = Feed.allVideos st ∧
  Feed.filteredVideos (FeedControls.clearFilters host st) ≡ₚ Feed.allVideos st ∧
  StronglySorted newest_first (Feed.filteredVideos (FeedControls.clearFilters host st)) ∧
  (Feed.currentFilters st = Feed.currentFilters Feed.initial →
   Feed.filteredVideos (Feed.applyFilters host st)
   = Js.sort Storage.by_date (Feed.allVideos st)).
Proof.
  assert (∀ l : list Video,
            filter (λ video, Feed.keep host (Feed.currentFilters Feed.initial) video) l
            = l) as Hall.
  { intros l. by apply filter_all. }
  assert (Feed.filteredVideos (FeedControls.clearFilters host st)
          = Js.sort Storage.by_date (Feed.allVideos st)) as Hshown.
  { unfold FeedControls.clearFilters, Feed.applyFilters, Feed.sortVideos.
    cbn [Feed.filteredVideos Feed.currentFilters Feed.allVideos sortBy].
    rewrite decide_True by done. f_equal. apply Hall. }
  split_and!; [done|reflexivity|reflexivity| | |].
  - rewrite Hshown. apply sort_perm.
  - rewrite Hshown. eapply StronglySorted_impl; [|apply (sort_sorted Storage.by_date)].
    intros a b. unfold Order.not_after, Storage.by_date, newest_first. lia.
  - intros Hdefault. unfold Feed.applyFilters, Feed.sortVideos.
    cbn [Feed.filteredVideos Feed.currentFilters Feed.allVideos].
    rewrite Hdefault. cbn [Feed.initial Feed.currentFilters sortBy].
    rewrite decide_True by done. f_equal. apply Hall.
Qed.

(** ** background/api-handler.js: the number of requests *)

Section Requests.
Context (host : Host).
Implicit Types (w : World) (apiKey : string) (t : list Event).

Lemma fetches_fetch t url : Api.fetches (t ++ [EvFetch url]) = S (Api.fetches t).
Proof.
  unfold Api.fetches. rewrite filter_app, length_app. simpl. lia.
Qed.

Lemma fetches_sleep t ms : Api.fetches (t ++ [EvSleep ms]) = Api.fetches t.
Proof.
  unfold Api.fetches. rewrite filter_app, length_app. simpl. lia.
Qed.

(** A detail request is one request, whatever comes back. *)
Lemma fetchVideoBatch_fetches chunk apiKey w :
  Api.fetches (trace (Obs.run (Api.fetchVideoBatch host chunk apiKey) w))
  = S (Api.fetches (trace w)).
Proof.
  unfold Obs.run, Api.fetchVideoBatch. rewrite bind_run. unfold Api.do_fetch.
  destruct (fetch host _ _) as [reason|response]; simpl; [apply fetches_fetch|].
  destruct (ok response); simpl; [|apply fetches_fetch].
  destruct (parsed_videos response); apply fetches_fetch.
Qed.

(** A channel lookup is at most one request, and none for no channel. *)
Lemma fetchChannelDetails_fetches channelIds apiKey w :
  (Api.fetches (trace w)
   <= Api.fetches (trace (Obs.run (Api.fetchChannelDetails host channelIds apiKey) w))
   <= S (Api.fetches (trace w)))%nat.
Proof.
  unfold Obs.run, Api.fetchChannelDetails. case_decide; [simpl; lia|].
  rewrite try_catch_run, bind_run. unfold Api.do_fetch.
  destruct (fetch host _ _) as [reason|response]; simpl;
    [rewrite fetches_fetch; lia|].
  destruct (ok response); simpl; [|rewrite fetches_fetch; lia].
  rewrite bind_run.
  destruct (channel_items response) as [[items|]|e]; simpl;
    [|rewrite fetches_fetch; lia..].
  destruct (Api.build_channel_map items ∅); simpl; rewrite fetches_fetch; lia.
Qed.

Lemma pause_fetches multi w :
  Api.fetches (trace (Chunks.pause multi w)) = Api.fetches (trace w).
Proof. destruct multi; simpl; [apply fetches_sleep|done]. Qed.

Lemma chunk_outcome_fetches apiKey multi chunk w records w1 :
  Chunks.chunk_outcome host apiKey multi chunk w records w1 →
  (S (Api.fetches (trace w)) <= Api.fetches (trace w1)
   <= S (S (Api.fetches (trace w))))%nat.
Proof.
  intros [message w' Hbatch|parsed w' details w2 Hbatch Hchan].
  - pose proof (fetchVideoBatch_fetches chunk apiKey w) as Hb.
    unfold Obs.run in Hb. rewrite Hbatch in Hb. simpl in Hb. lia.
  - pose proof (fetchVideoBatch_fetches chunk apiKey w) as Hb.
    unfold Obs.run in Hb. rewrite Hbatch in Hb. simpl in Hb.
    pose proof (fetchChannelDetails_fetches
                  (Utils.deduplicateBy (channelId <$> parsed) (λ c, c)) apiKey w')
      as Hc.
    unfold Obs.run in Hc. rewrite Hchan in Hc. simpl in Hc.
    rewrite pause_fetches. lia.
Qed.

Lemma outcomes_fetches apiKey multi chunks w records w' :
  Chunks.outcomes host apiKey multi chunks w records w' →
  (Api.fetches (trace w) + length chunks <= Api.fetches (trace w')
   <= Api.fetches (trace w) + 2 * length chunks)%nat.
Proof.
  induction 1 as [|chunk chunks w records w1 rest w2 Hchunk _ IH]; simpl; [lia|].
  apply chunk_outcome_fetches in Hchunk. lia.
Qed.

Lemma estimateQuotaUsage_chunks (videoIds : list string) :
  Api.estimateQuotaUsage (Z.of_nat (length videoIds))
  = 2 * Z.of_nat (length (Utils.chunkArray videoIds Constants.BATCH_SIZE)).
Proof.
  rewrite chunkArray_length by (unfold Constants.BATCH_SIZE; lia).
  unfold Api.estimateQuotaUsage, Constants.BATCH_SIZE.
  rewrite Nat2Z.inj_div, Nat2Z.inj_sub, Nat2Z.inj_add by lia. simpl Z.of_nat. lia.
Qed.
End Requests.

(** X20. The quota estimate bounds the traffic. [estimateQuotaUsage] of
    the number of identifiers is twice the number of chunks that
    [fetchVideoDetails] cuts them into, and a run of [fetchVideoDetails]
    sends at most that many requests, whatever the network answers; with
    a credential it sends at least one request per chunk. *)
Theorem X20_requests_within_quota_estimate (host : Host)
    (videoIds : list string) (apiKey : string) (w : World) :
  Api.estimateQuotaUsage (Z.of_nat (length videoIds))
    = 2 * Z.of_nat (length (Utils.chunkArray videoIds Constants.BATCH_SIZE)) ∧
  (Api.fetches (trace w)
   <= Api.fetches (trace (Obs.run (Api.fetchVideoDetails host videoIds apiKey) w)))%nat ∧
  Z.of_nat (Api.fetches (trace (Obs.run (Api.fetchVideoDetails host videoIds apiKey) w))
            - Api.fetches (trace w))
    <= Api.estimateQuotaUsage (Z.of_nat (length videoIds)) ∧
  (apiKey ≠ "" →
   (length (Utils.chunkArray videoIds Constants.BATCH_SIZE)
    <= Api.fetches (trace (Obs.run (Api.fetchVideoDetails host videoIds apiKey) w))
       - Api.fetches (trace w))%nat).
Proof.
  pose proof (estimateQuotaUsage_chunks videoIds) as Hquota.
  split; [done|]. rewrite Hquota.
  unfold Obs.run, Api.fetchVideoDetails.
  case_decide as Hlen.
  { simpl. split_and!; [lia..|].
    intros _. destruct videoIds; [simpl; lia|done]. }
  destruct apiKey as [|c apiKey].
  { simpl. split_and!; [lia..|done]. }
  change (Js.truthy_string (String c apiKey)) with true.
  cbn [negb]. cbv iota zeta.
  destruct (fetch_chunks_run host
              (Utils.chunkArray videoIds Constants.BATCH_SIZE) (String c apiKey)
              (Utils.chunkArray videoIds Constants.BATCH_SIZE) [] w)
    as (records & w' & Hout & ->).
  apply outcomes_fetches in Hout. simpl. split_and!; [lia..|]. intros _. lia.
Qed.

(** X20 on fifty-one identifiers, two chunks, with a network whose first
    answer is an error: three requests, within the estimate of four. *)
Lemma X20_witness_two_chunks :
  let host := Demo.host Demo.kib_per_video Demo.first_fails in
  let w := Demo.world empty_store in
  "k" ≠ "" ∧
  Api.estimateQuotaUsage (Z.of_nat (length Demo.fifty_one_ids)) = 4 ∧
  Api.fetches (trace (Obs.run (Api.fetchVideoDetails host Demo.fifty_one_ids "k") w))
    = 3%nat ∧
  (length (Utils.chunkArray Demo.fifty_one_ids Constants.BATCH_SIZE)
   <= Api.fetches (trace (Obs.run (Api.fetchVideoDetails host Demo.fifty_one_ids "k") w))
      - Api.fetches (trace w))%nat.
Proof.
  intros host w.
  assert ("k" ≠ "") as Hkey by discriminate.
  split; [exact Hkey|]. split; [reflexivity|]. split; [reflexivity|].
  by apply (X20_requests_within_quota_estimate host Demo.fifty_one_ids "k" w).
Defined.

(** ** background/api-handler.js: the channel lookup *)

Section ChannelLookup.
Context (host : Host).
Implicit Types (w : World) (apiKey : string) (items : list ChannelItem)
  (channelMap details : gmap string Api.ChannelInfo).

(** The entry that an item writes into the channel map. *)
Lemma build_channel_map_lookup items channelMap details k :
  Api.build_channel_map items channelMap = Ok details →
  details !! k
  = match last (filter (λ item, channel_id item = k) items) with
    | Some item =>
        snippet ← channel_snippet item;
        Some {| Api.info_country := Api.string_or_null (country snippet);
                Api.info_title := Api.string_or (channel_title snippet) "";
                Api.info_customUrl := Api.string_or (customUrl snippet) "" |}
    | None => channelMap !! k
    end.
Proof.
  revert channelMap. induction items as [|item items IH]; intros channelMap; simpl.
  - by intros [= <-].
  - destruct (channel_snippet item) as [snippet|] eqn:Hsnippet; [|done].
    intros Hbuild. rewrite (IH _ Hbuild).
    rewrite filter_cons. case_decide as Hk.
    + destruct (filter (λ item, channel_id item = k) items) as [|i rest] eqn:Hf.
      * simpl. rewrite Hsnippet. simpl. subst k. by rewrite lookup_insert_eq.
      * rewrite last_cons_cons.
        destruct (last (i :: rest)) eqn:Hlast; [done|].
        by apply last_None in Hlast.
    + destruct (last (filter (λ item, channel_id item = k) items)); [done|].
      by rewrite lookup_insert_ne.
Qed.

Lemma build_channel_map_snippets items channelMap :
  (∃ details, Api.build_channel_map items channelMap = Ok details) ↔
  Forall (λ item, channel_snippet item ≠ None) items.
Proof.
  revert channelMap. induction items as [|item items IH]; intros channelMap; simpl.
  - split; [constructor|by eexists].
  - destruct (channel_snippet item) as [snippet|] eqn:Hsnippet.
    + rewrite IH. split; [intros ?; constructor; [by rewrite Hsnippet|done]|].
      by intros [_ ?]%Forall_cons.
    + split; [by intros [? ?]|]. intros [Habs _]%Forall_cons. by rewrite Hsnippet in Habs.
Qed.
End ChannelLookup.

(** X21. The channel lookup cannot fail. [fetchChannelDetails] always
    returns a map and never throws, and it touches neither the store nor
    the clock; for no channel it returns the empty map without a request.
    It returns a non-empty map only from one request that was answered
    with a success status and a list of items that all have a snippet:
    a rejected request, an error status, an unreadable body, a missing
    list or an item without snippet all give the empty map. *)
Theorem X21_fetchChannelDetails_cannot_fail (host : Host)
    (channelIds : list string) (apiKey : string) (w : World) :
  ∃ details w',
    Api.fetchChannelDetails host channelIds apiKey w = (Ok details, w') ∧
    store w' = store w ∧ clock w' = clock w ∧
    (channelIds = [] → details = ∅ ∧ w' = w) ∧
    (details ≠ ∅ →
     ∃ url response items,
       trace w' = trace w ++ [EvFetch url] ∧
       fetch host (Api.fetches (trace w)) url = Resolved response ∧
       ok response = true ∧
       channel_items response = Ok (Some items) ∧
       Forall (λ item, channel_snippet item ≠ None) items ∧
       Api.build_channel_map items ∅ = Ok details).
Proof.
  unfold Api.fetchChannelDetails. case_decide as Hlen.
  { exists ∅, w. split_and!; try done. }
  rewrite try_catch_run, bind_run. unfold Api.do_fetch.
  assert (channelIds ≠ []) as Hne by (intros ->; done).
  destruct (fetch host _ _) as [reason|response] eqn:Hfetch.
  { eexists ∅, _. split_and!; try done. }
  destruct (ok response) eqn:Hok; simpl.
  2:{ eexists ∅, _. split_and!; try done. }
  rewrite bind_run.
  destruct (channel_items response) as [[items|]|e] eqn:Hitems; simpl.
  - destruct (Api.build_channel_map items ∅) as [details|e] eqn:Hbuild; simpl.
    + eexists details, _. split_and!; try done.
      intros _. eexists _, response, items. split_and!; try done.
      apply (build_channel_map_snippets items ∅). by exists details.
    + eexists ∅, _. split_and!; try done.
  - eexists ∅, _. split_and!; try done.
  - eexists ∅, _. split_and!; try done.
Qed.

(** X21 on the network whose every answer is a rejection. *)
Lemma X21_witness_offline :
  ∃ w',
    Api.fetchChannelDetails Demo.roomy ["UCa"; "UCb"] "k" (Demo.world empty_store)
    = (Ok ∅, w') ∧
    store w' = store (Demo.world empty_store).
Proof.
  destruct (X21_fetchChannelDetails_cannot_fail Demo.roomy ["UCa"; "UCb"] "k"
              (Demo.world empty_store))
    as (details & w' & Hrun & Hstore & _ & _ & Hnonempty).
  exists w'. split; [|exact Hstore].
  rewrite Hrun. do 2 f_equal.
  destruct (decide (details = ∅)) as [->|Hne]; [done|].
  destruct (Hnonempty Hne) as (url & response & items & _ & Hfetch & _).
  discriminate Hfetch.
Defined.

(** X22. How a fetched record gets its region. With the channel map built
    from a list of channel items, [merge_channel] replaces the region
    inferred from the language by the country of the video's channel when
    the list has an item for that channel (the last one counts) with a
    non-empty country, and leaves the record as it is otherwise; no other
    field ever changes. *)
Theorem X22_channel_country_replaces_region (items : list ChannelItem)
    (details : gmap string Api.ChannelInfo) (video : Video) :
  Api.build_channel_map items ∅ = Ok details →
  regionCode (Api.merge_channel details video)
  = match (last (filter (λ item, channel_id item = channelId video) items)
             ≫= channel_snippet) ≫= country with
    | Some c => if Js.truthy_string c then c else regionCode video
    | None => regionCode video
    end ∧
  (id (Api.merge_channel details video) = id video ∧
   title (Api.merge_channel details video) = title video ∧
   channelTitle (Api.merge_channel details video) = channelTitle video ∧
   channelId (Api.merge_channel details video) = channelId video ∧
   defaultLanguage (Api.merge_channel details video) = defaultLanguage video ∧
   defaultAudioLanguage (Api.merge_channel details video)
     = defaultAudioLanguage video ∧
   capturedAt (Api.merge_channel details video) = capturedAt video ∧
   viewCount (Api.merge_channel details video) = viewCount video).
Proof.
  intros Hbuild. unfold Api.merge_channel.
  rewrite (build_channel_map_lookup items ∅ details (channelId video) Hbuild).
  destruct (last (filter (λ item, channel_id item = channelId video) items))
    as [item|]; simpl; [|by rewrite lookup_empty].
  destruct (channel_snippet item) as [snippet|]; simpl; [|done].
  unfold Api.string_or_null.
  destruct (country snippet) as [c|]; simpl; [|done].
  destruct (Js.truthy_string c) eqn:Hc; simpl; [by rewrite Hc|done].
Qed.

(** X22 on the record [zulu], whose channel is placed in Japan. *)
Lemma X22_witness_japan :
  let items := [{| channel_id := "UCz";
                   channel_snippet :=
                     Some {| country := Some "JP"; channel_title := Some "Z";
                             customUrl := None |} |}] in
  ∃ details,
    Api.build_channel_map items ∅ = Ok details ∧
    regionCode (Api.merge_channel details Demo.zulu) = "JP" ∧
    title (Api.merge_channel details Demo.zulu) = "Zulu".
Proof.
  intros items. eexists. split; [reflexivity|].
  match goal with
  | |- regionCode (Api.merge_channel ?d _) = _ ∧ _ =>
      destruct (X22_channel_country_replaces_region items d Demo.zulu eq_refl)
        as (Hregion & _ & Htitle & _)
  end.
  split; [exact Hregion|exact Htitle].
Defined.

(** ** pages/options/options.js: what the form lets through *)

Section OptionsForm.
Context (host : Host).
Implicit Types (w : World) (page : Settings) (x : Js.number).


End OptionsForm.



(** ** content/youtube-scraper.js: the scroll loop *)

Section ScrollLoop.
Context (found : nat → Z) (targetCount : Z).
Implicit Types (l final : Scraper.Loop) (fuel k : nat).

Lemma scrolling_false_at_maximum l :
  (Scraper.maxScrollAttempts <= Scraper.scrollAttempts l)%nat →
  Scraper.scrolling targetCount l = false.
Proof.
  intros Hmax. unfold Scraper.scrolling.
  rewrite (bool_decide_eq_false_2 (_ < _)%nat) by lia. apply andb_false_r.
Qed.

Lemma scroll_loop_stopped fuel l :
  Scraper.scrolling targetCount l = false →
  Scraper.scroll_loop found targetCount fuel l = Some l.
Proof. intros Hstop. destruct fuel; simpl; by rewrite Hstop. Qed.

Lemma scroll_loop_stops k :
  ∀ l, (Scraper.maxScrollAttempts - Scraper.scrollAttempts l <= k)%nat →
  ∃ final,
    (∀ fuel, (k <= fuel)%nat →
             Scraper.scroll_loop found targetCount fuel l = Some final) ∧
    (Scraper.scrollAttempts l <= Scraper.scrollAttempts final)%nat ∧
    (Scraper.scrollAttempts final
     <= Scraper.scrollAttempts l `max` Scraper.maxScrollAttempts)%nat ∧
    (Scraper.scrolling targetCount l = false → final = l) ∧
    Scraper.stopped targetCount final.
Proof.
  induction k as [|k IH]; intros l Hk.
  - assert (Scraper.scrolling targetCount l = false) as Hstop
      by (apply scrolling_false_at_maximum; lia).
    exists l. split_and!; [|lia|lia|done|by left].
    intros fuel _. by apply scroll_loop_stopped.
  - destruct (Scraper.scrolling targetCount l) eqn:Hgo.
    2:{ exists l. split_and!; [|lia|lia|done|by left].
        intros fuel _. by apply scroll_loop_stopped. }
    pose proof Hgo as Hgo'. unfold Scraper.scrolling in Hgo'.
    apply andb_true_iff in Hgo' as [_ Hlt%bool_decide_eq_true].
    destruct (found (Scraper.scrollAttempts l) =? Scraper.previousCount l) eqn:Hsame.
    + destruct (bool_decide (Scraper.noNewVideosThreshold
                             <= S (Scraper.noNewVideosCount l))%nat) eqn:Hthird.
      * eexists. split_and!.
        -- intros fuel Hfuel. destruct fuel as [|fuel]; [lia|]. simpl.
           rewrite Hgo, Hsame, Hthird. reflexivity.
        -- cbn [Scraper.scrollAttempts]. lia.
        -- cbn [Scraper.scrollAttempts]. lia.
        -- intros Hstop. congruence.
        -- right. simpl. by apply bool_decide_eq_true in Hthird.
      * destruct (IH {| Scraper.previousCount := found (Scraper.scrollAttempts l);
                        Scraper.currentCount := found (Scraper.scrollAttempts l);
                        Scraper.scrollAttempts := S (Scraper.scrollAttempts l);
                        Scraper.noNewVideosCount := S (Scraper.noNewVideosCount l) |})
          as (final & Hrun & Hge & Hle & _ & Hstopped);
          [unfold Scraper.maxScrollAttempts in *; simpl; lia|].
        exists final. split_and!.
        -- intros fuel Hfuel. destruct fuel as [|fuel]; [lia|]. simpl.
           rewrite Hgo, Hsame, Hthird. apply Hrun. lia.
        -- cbn [Scraper.scrollAttempts] in Hge. lia.
        -- cbn [Scraper.scrollAttempts] in Hle. lia.
        -- intros Hstop. congruence.
        -- done.
    + destruct (IH {| Scraper.previousCount := found (Scraper.scrollAttempts l);
                      Scraper.currentCount := found (Scraper.scrollAttempts l);
                      Scraper.scrollAttempts := S (Scraper.scrollAttempts l);
                      Scraper.noNewVideosCount := 0 |})
        as (final & Hrun & Hge & Hle & _ & Hstopped);
          [unfold Scraper.maxScrollAttempts in *; simpl; lia|].
      exists final. split_and!.
      * intros fuel Hfuel. destruct fuel as [|fuel]; [lia|]. simpl.
        rewrite Hgo, Hsame. apply Hrun. lia.
      * cbn [Scraper.scrollAttempts] in Hge. lia.
      * cbn [Scraper.scrollAttempts] in Hle. lia.
      * intros Hstop. congruence.
      * done.
Qed.
End ScrollLoop.

(** X24. The scroll loop of [autoScroll] ends, whatever the page does:
    twenty iterations are enough, more change nothing, and at most twenty
    scrolls are made. It ends because
    the target count was reached, because twenty scrolls were made, or
    because a third scroll in a row found nothing new; with a target of
    zero or less it does not scroll at all. *)
Theorem X24_autoScroll_stops_within_twenty_scrolls (found : nat → Z)
    (targetCount : Z) :
  ∃ final,
    (∀ fuel, (20 <= fuel)%nat →
             Scraper.autoScroll found targetCount fuel = Some final) ∧
    (Scraper.scrollAttempts final <= 20)%nat ∧
    (targetCount <= Scraper.currentCount final ∨
     Scraper.scrollAttempts final = 20%nat ∨
     (3 <= Scraper.noNewVideosCount final)%nat) ∧
    (targetCount <= 0 → final = Scraper.start).
Proof.
  destruct (scroll_loop_stops found targetCount 20 Scraper.start)
    as (final & Hrun & _ & Hle & Hstart & Hstopped);
    [unfold Scraper.maxScrollAttempts; simpl; lia|].
  exists final. split_and!.
  - exact Hrun.
  - unfold Scraper.maxScrollAttempts, Scraper.start in Hle. simpl in Hle. lia.
  - destruct Hstopped as [Hstop|Hthird]; [|by right; right].
    unfold Scraper.scrolling in Hstop. apply andb_false_iff in Hstop as [Hcount|Hmax].
    + left. by apply Z.ltb_ge in Hcount.
    + right; left. apply bool_decide_eq_false in Hmax.
      unfold Scraper.maxScrollAttempts, Scraper.start in *. simpl in Hle. lia.
  - intros Htarget. apply Hstart. unfold Scraper.scrolling. simpl.
    by rewrite (proj2 (Z.ltb_ge 0 targetCount) Htarget).
Qed.

(** X24 on a page that loads ten more videos with every scroll, for a
    target of 35: four scrolls. *)
Lemma X24_witness_ten_per_scroll :
  ∃ final,
    Scraper.autoScroll (λ n, 10 * Z.of_nat (S n)) 35 20 = Some final ∧
    Scraper.scrollAttempts final = 4%nat ∧
    Scraper.currentCount final = 40.
Proof.
  destruct (X24_autoScroll_stops_within_twenty_scrolls (λ n, 10 * Z.of_nat (S n)) 35)
    as (final & Hrun & _).
  exists final. specialize (Hrun 20%nat (Nat.le_refl _)).
  split; [exact Hrun|].
  vm_compute in Hrun. injection Hrun as <-. by split.
Defined.

(** X19 on the four stored records, as the page has just loaded them. *)
Lemma X19_witness_page_loaded :
  let st := {| Feed.allVideos := Demo.captured ++ Demo.stored;
               Feed.filteredVideos := [];
               Feed.currentFilters := Feed.currentFilters Feed.initial |} in
  Feed.currentFilters st = Feed.currentFilters Feed.initial ∧
  Feed.filteredVideos (Feed.applyFilters Demo.roomy st)
    = Js.sort Storage.by_date (Feed.allVideos st) ∧
  Obs.ids (Feed.filteredVideos (Feed.applyFilters Demo.roomy st))
    = ["a"; "e"; "a"; "b"; "c"; "d"].
Proof.
  intros st. split; [reflexivity|]. split; [|reflexivity].
  by apply (X19_clearFilters_shows_everything Demo.roomy st).
Defined.

(** ** pages/options/options.js: saving the credential alone *)



(** ** background/storage-manager.js: what a merge leaves alone *)


